(** * Arithmetic series values of [generic/tclArithSeries.c]

    A shallow embedding of the ArithSeries abstract list (the inner
    workings of [lseq]) and the properties of its length computation,
    construction, indexing, slicing, reversal, duplication and string
    rendering.

    Conventions of the embedding:
    - [Tcl_WideInt] is a [Z] kept in the signed 64-bit range; every
      arithmetic operator of the C text is followed by [Wide.wrap];
    - [double] is an IEEE 754 binary64 value, [spec_float] with
      [prec = 53] and [emax = 1024], so that the C operators are the
      [SF*] operations of the standard library;
    - a C computation that has no defined result (a panic, a trap of the
      integer division, a read of a variable that was never assigned, a
      conversion out of range, a store through a pointer of the wrong type
      or through NULL) is [Stuck];
    - [Tcl_Obj]s live in a store indexed by locations, with their
      reference count, string representation and internal representation. *)

From Stdlib Require Import ZArith Lia ZifyBool Bool List String Ascii DecimalString.
From Stdlib Require Import Floats.SpecFloat.
From stdpp Require Import base option gmap.

Local Open Scope Z_scope.

(** ** Tcl_WideInt *)

Module Wide.

Definition MIN : Z := - 2 ^ 63.
Definition MAX : Z := 2 ^ 63 - 1.

Definition in_range (z : Z) : Prop := MIN <= z <= MAX.

(** Two's complement reduction to 64 bits. *)
Definition wrap (z : Z) : Z := (z + 2 ^ 63) mod 2 ^ 64 - 2 ^ 63.

Definition add (a b : Z) : Z := wrap (a + b).
Definition sub (a b : Z) : Z := wrap (a - b).
Definition mul (a b : Z) : Z := wrap (a * b).
Definition neg (a : Z) : Z := wrap (- a).

(** C's [/] on integers truncates toward zero.  The machine's division
    traps on a zero divisor and on [LLONG_MIN / -1], the one quotient that
    does not fit: [quot] is the quotient where the division is defined, and
    every division of the functions below is guarded by [div_traps]. *)
Definition quot (a b : Z) : Z := wrap (a ÷ b).

Definition div_traps (a b : Z) : bool :=
  (b =? 0) || ((a =? MIN) && (b =? -1)).

(** Conversion of a [Tcl_WideInt] to C's [int]. *)
Definition to_int (z : Z) : Z := (z + 2 ^ 31) mod 2 ^ 32 - 2 ^ 31.

Definition INT_MAX : Z := 2 ^ 31 - 1.

End Wide.

(** ** double *)

Module Dbl.

Definition double : Type := spec_float.

Definition prec : Z := 53.
Definition emax : Z := 1024.

Definition zero : double := S754_zero false.

Definition add : double -> double -> double := SFadd prec emax.
Definition sub : double -> double -> double := SFsub prec emax.
Definition mul : double -> double -> double := SFmul prec emax.
Definition div : double -> double -> double := SFdiv prec emax.
Definition neg : double -> double := SFopp.
Definition eqb : double -> double -> bool := SFeqb.
Definition ltb : double -> double -> bool := SFltb.

(** [(double) i] for a [Tcl_WideInt] [i]: round to nearest, ties to even. *)
Definition of_wide (i : Z) : double := binary_normalize prec emax i 0 false.

(** The integral part of a finite value, toward zero. *)
Definition trunc (d : double) : option Z :=
  match d with
  | S754_zero _ => Some 0
  | S754_finite s m e =>
      let t := if 0 <=? e then Z.pos m * 2 ^ e else Z.pos m / 2 ^ (- e) in
      Some (if s then - t else t)
  | S754_infinity _ | S754_nan => None
  end.

(** [(Tcl_WideInt) d]: the truncated value when it fits, no defined
    value otherwise. *)
Definition to_wide (d : double) : option Z :=
  match trunc d with
  | Some t => if (Wide.MIN <=? t) && (t <=? Wide.MAX) then Some t else None
  | None => None
  end.

(** Decimal literals used in examples: the binary64 nearest to [n / 10 ^ k]. *)
Definition of_decimal (n : Z) (k : Z) : double :=
  div (of_wide n) (of_wide (10 ^ k)).

End Dbl.

Abbreviation double := Dbl.double.

(** ** ArithSeriesLen (lines 108-116)

    The value returned; [call_ArithSeriesLen], further down, is a call of
    the function, with the trap of its division. *)

Definition ArithSeriesLen (start end_ step : Z) : Z :=
  if step =? 0 then 0
  else
    let len := if negb (step =? 0)
               then Wide.add 1 (Wide.quot (Wide.sub end_ start) step)
               else 0 in
    if len <? 0 then -1 else len.


(** ** Outcomes of a C computation *)

Inductive outcome (A : Type) : Type :=
| Ret (a : A)
| Stuck.
Arguments Ret {A} a.
Arguments Stuck {A}.

Definition obind {A B} (m : outcome A) (k : A -> outcome B) : outcome B :=
  match m with
  | Ret a => k a
  | Stuck => Stuck
  end.

Notation "'let?' x := m 'in' k" := (obind m (fun x => k))
  (at level 10, x pattern, m at level 100, k at level 200).

(** Reading a variable: a variable that holds no value the embedding can
    name (never assigned, assigned from a conversion out of range, or
    assigned from the bit pattern of a NaN, which [spec_float] does not
    record) cannot be read. *)
Definition rd {A} (v : option A) : outcome A :=
  match v with
  | Some a => Ret a
  | None => Stuck
  end.

Inductive status : Set := TCL_OK | TCL_ERROR.

(** A call of [ArithSeriesLen]: with a nonzero step the division of line
    114 is executed, and traps on [LLONG_MIN / -1]. *)
Definition call_ArithSeriesLen (start end_ step : Z) : outcome Z :=
  if negb (step =? 0) && Wide.div_traps (Wide.sub end_ start) step then Stuck
  else Ret (ArithSeriesLen start end_ step).

(** [Tcl_Interp *]: NULL, or an interpreter that takes the error report. *)
Inductive InterpPtr : Set := NULL | Interp.

(** ** Numeric values of the host

    What [TclGetNumberFromObj] finds in a numeric [Tcl_Obj]: a wide integer
    ([TCL_NUMBER_INT]) or a double ([TCL_NUMBER_DOUBLE], or [TCL_NUMBER_NAN]
    when the double is a NaN).  A numeric temporary of the C text that is
    created and freed within one call (the [startObj], [endObj], [stepObj]
    of the slice, the [eleObj] of the renderer) is carried as such a value;
    one that outlives the call is an object of the store. *)

Inductive Number : Type :=
| NumInt (i : Z)
| NumDbl (d : double).

Definition Tcl_NewWideIntObj (i : Z) : Number := NumInt i.
Definition Tcl_NewDoubleObj (d : double) : Number := NumDbl d.

(** [Tcl_GetWideIntFromObj]: fails, leaving the variable alone, on a value
    that is not an integer. *)
Definition Tcl_GetWideIntFromObj (n : Number) : option Z :=
  match n with
  | NumInt i => Some i
  | NumDbl _ => None
  end.

(** [Tcl_GetDoubleFromObj]: an integer is converted. *)
Definition Tcl_GetDoubleFromObj (n : Number) : option double :=
  match n with
  | NumInt i => Some (Dbl.of_wide i)
  | NumDbl S754_nan => None
  | NumDbl d => Some d
  end.

(** ** The host parameters this file is compiled against *)

Record Host : Type := {
  TCL_MAJOR_VERSION : Z;
  ListSizeT_MAX : Z;
  (** [Tcl_GetStringFromObj] on a numeric value: its string form. *)
  Tcl_GetString : Number -> string
}.

(** ** Representations and objects *)

Definition loc : Type := positive.

(** [ArithSeries] and [ArithSeriesDbl] share [len], [elements] and
    [isDouble]; they differ in the type of [start], [end] and [step]. *)
Inductive Bounds : Type :=
| IntBounds (start end_ step : Z)
| DblBounds (start end_ step : double).

Record ArithSeries : Type := {
  bounds : Bounds;
  len : Z;
  elements : option loc   (* NULL, or the address of the cached array *)
}.

Definition isDouble (r : ArithSeries) : bool :=
  match bounds r with
  | IntBounds _ _ _ => false
  | DblBounds _ _ _ => true
  end.

Inductive InternalRep : Type :=
| NoRep                                 (* typePtr == NULL *)
| NumberRep (n : Number)                (* tclIntType, tclDoubleType *)
| AbstractListRep (r : ArithSeries).    (* tclAbstractListType, arithSeriesType *)

Record Tcl_Obj : Type := {
  refCount : Z;
  bytes : option string;     (* None: the string representation is invalid *)
  internalRep : InternalRep
}.

Record store : Type := {
  objs : gmap loc Tcl_Obj;
  arrays : gmap loc (list loc)    (* ckalloc'ed arrays of Tcl_Obj pointers *)
}.

(** ** Computations on the store *)

Definition M (A : Type) : Type := store -> outcome (A * store).

Definition ret {A} (a : A) : M A := fun s => Ret (a, s).
Definition stuck {A} : M A := fun _ => Stuck.
Definition bind {A B} (m : M A) (k : A -> M B) : M B :=
  fun s => match m s with
           | Ret (a, s') => k a s'
           | Stuck => Stuck
           end.
Definition lift {A} (o : outcome A) : M A :=
  fun s => match o with
           | Ret a => Ret (a, s)
           | Stuck => Stuck
           end.

Notation "x <- m ;; k" := (bind m (fun x => k))
  (at level 100, m at next level, right associativity).
Notation "m ;;; k" := (bind m (fun _ => k))
  (at level 100, right associativity).

Definition get_obj (p : loc) : M Tcl_Obj :=
  fun s => match objs s !! p with
           | Some o => Ret (o, s)
           | None => Stuck
           end.

Definition store_with (s : store) (p : loc) (o : Tcl_Obj) : store :=
  {| objs := <[p := o]> (objs s); arrays := arrays s |}.

Definition set_obj (p : loc) (o : Tcl_Obj) : M unit :=
  fun s => Ret (tt, store_with s p o).

(** The address handed out by the next allocation of an object. *)
Definition alloc_loc (s : store) : loc := fresh (dom (objs s)).

Definition alloc_obj (o : Tcl_Obj) : M loc :=
  fun s => Ret (alloc_loc s, store_with s (alloc_loc s) o).

(** [Tcl_AbstractListGetConcreteRep] *)
Definition concrete_rep (o : Tcl_Obj) : option ArithSeries :=
  match internalRep o with
  | AbstractListRep r => Some r
  | _ => None
  end.

Definition get_rep (p : loc) : M ArithSeries :=
  o <- get_obj p ;; lift (rd (concrete_rep o)).

(** [TclNewObj]: an empty value, no type, reference count 0. *)
Definition empty_obj : Tcl_Obj :=
  {| refCount := 0; bytes := Some EmptyString; internalRep := NoRep |}.

Definition TclNewObj : M loc := alloc_obj empty_obj.

Definition TclInvalidateStringRep (p : loc) : M unit :=
  o <- get_obj p ;;
  set_obj p {| refCount := refCount o; bytes := None;
               internalRep := internalRep o |}.

Definition set_rep (p : loc) (r : ArithSeries) : M unit :=
  o <- get_obj p ;;
  set_obj p {| refCount := refCount o; bytes := bytes o;
               internalRep := AbstractListRep r |}.

(** ** Reference counts and numeric objects *)

Definition Tcl_IsShared (o : Tcl_Obj) : bool := refCount o >? 1.

Definition Tcl_IncrRefCount (p : loc) : M unit :=
  o <- get_obj p ;;
  set_obj p {| refCount := refCount o + 1; bytes := bytes o;
               internalRep := internalRep o |}.

(** [Tcl_DecrRefCount]: the object is freed when the count was at most 1. *)
Definition Tcl_DecrRefCount (p : loc) : M unit :=
  o <- get_obj p ;;
  if refCount o <=? 1 then
    fun s => Ret (tt, {| objs := delete p (objs s); arrays := arrays s |})
  else
    set_obj p {| refCount := refCount o - 1; bytes := bytes o;
                 internalRep := internalRep o |}.

(** An object holding a number, as [Tcl_NewWideIntObj] and
    [Tcl_NewDoubleObj] create it: no reference yet, no string. *)
Definition number_obj (n : Number) : Tcl_Obj :=
  {| refCount := 0; bytes := None; internalRep := NumberRep n |}.

(** The number in a numeric object. *)
Definition get_number (p : loc) : M Number :=
  o <- get_obj p ;;
  match internalRep o with
  | NumberRep n => ret n
  | _ => stuck
  end.

(** [TclSetIntObj], [TclSetDoubleObj]: the value is replaced and the string
    representation invalidated. *)
Definition set_number (p : loc) (n : Number) : M unit :=
  o <- get_obj p ;;
  set_obj p {| refCount := refCount o; bytes := None;
               internalRep := NumberRep n |}.

(** ** TclNewArithSeriesInt, TclNewArithSeriesDbl (lines 200-274) *)

Definition series_obj (b : Bounds) (length : Z) : Tcl_Obj :=
  {| refCount := 0; bytes := None;
     internalRep := AbstractListRep
       {| bounds := b; len := length; elements := None |} |}.

Definition new_series (b : Bounds) (length : Z) : M loc :=
  alloc_obj (series_obj b length).

Definition TclNewArithSeriesInt (start end_ step len : Z) : M loc :=
  length <- (if len >=? 0 then ret len
             else lift (call_ArithSeriesLen start end_ step)) ;;
  if length <=? 0 then TclNewObj
  else new_series (IntBounds start end_ step) length.

Definition TclNewArithSeriesDbl (start end_ step : double) (len : Z) : M loc :=
  length <- (if len >=? 0 then ret len
             else lift (let? s := rd (Dbl.to_wide start) in
                        let? e := rd (Dbl.to_wide end_) in
                        let? st := rd (Dbl.to_wide step) in
                        call_ArithSeriesLen s e st)) ;;
  if length <=? 0 then TclNewObj
  else new_series (DblBounds start end_ step) length.

(** ** assignNumber (lines 295-324)

    Assigns the integer variable or the double variable, by [useDoubles];
    the other one keeps what it held.  Each mode tests for its own type and
    reads the other member of the union in every other case: in double
    mode a NaN ([TCL_NUMBER_NAN], not [TCL_NUMBER_DOUBLE]) is read through
    the integer member, [(double) number->i], a value made of the NaN's bit
    pattern; in integer mode a double is converted, [(Tcl_WideInt)
    number->d]. *)

Definition assignNumber (useDoubles : bool) (vars : option Z * option double)
    (numberObj : Number) : option Z * option double :=
  let '(i, d) := vars in
  if useDoubles then
    (i, match numberObj with
        | NumDbl S754_nan => None
        | NumDbl x => Some x
        | NumInt n => Some (Dbl.of_wide n)
        end)
  else
    (match numberObj with
     | NumInt n => Some n
     | NumDbl x => Dbl.to_wide x
     end, d).

(** ** TclNewArithSeriesObj (lines 346-431) *)

(** The local variables once lines 360-415 have run. *)
Record locals : Type := {
  l_start : option Z;
  l_end : option Z;
  l_step : option Z;
  l_len : option Z;
  l_dstart : option double;
  l_dend : option double;
  l_dstep : option double
}.

Inductive inferred : Type :=
| ZeroStep               (* line 373: the step is zero *)
| BadLength              (* line 382: the length is not an integer *)
| Args (l : locals).

Definition present {A} (o : option A) : bool :=
  match o with
  | Some _ => true
  | None => false
  end.

Definition infer (useDoubles : bool)
    (startObj endObj stepObj lenObj : option Number) : outcome inferred :=
  (* 360-365 *)
  let '(start, dstart) :=
    match startObj with
    | Some o => assignNumber useDoubles (None, None) o
    | None => (Some 0, Some (Dbl.of_wide 0))
    end in
  (* 366-377 *)
  let? stepped :=
    match stepObj with
    | Some o =>
        let '(step, dstep) := assignNumber useDoubles (None, None) o in
        let? sd := (if useDoubles
                    then let? d := rd dstep in Ret (Dbl.to_wide d, Some d)
                    else let? i := rd step in Ret (Some i, Some (Dbl.of_wide i))) in
        let? d := rd (snd sd) in
        Ret (sd, Dbl.eqb d Dbl.zero)
    | None => Ret ((None, None), false)
    end in
  let '((step, dstep), zero) := stepped in
  if zero then Ret ZeroStep
  else
    (* 378-380 *)
    let '(end_, dend) :=
      match endObj with
      | Some o => assignNumber useDoubles (None, None) o
      | None => (None, None)
      end in
    (* 381-385 *)
    match (match lenObj with
           | Some o => match Tcl_GetWideIntFromObj o with
                       | Some n => Some (Some n)
                       | None => None
                       end
           | None => Some None
           end) with
    | None => Ret BadLength
    | Some len =>
        (* 387-405 *)
        let? sdl :=
          (if present startObj && present endObj then
             let? sd :=
               (if negb (present stepObj) then
                  if useDoubles then
                    let? a := rd dstart in
                    let? b := rd dend in
                    let d := if Dbl.ltb a b then Dbl.of_wide 1
                             else Dbl.of_wide (-1) in
                    Ret (Dbl.to_wide d, Some d)
                  else
                    let? a := rd start in
                    let? b := rd end_ in
                    let s := if a <? b then 1 else -1 in
                    Ret (Some s, Some (Dbl.of_wide s))
                else Ret (step, dstep)) in
             let '(step, dstep) := sd in
             (* assert(dstep != 0) *)
             let? d := rd dstep in
             if Dbl.eqb d Dbl.zero then Stuck
             else
               let? len :=
                 (if negb (present lenObj) then
                    if useDoubles then
                      let? a := rd dstart in
                      let? b := rd dend in
                      Ret (Dbl.to_wide (Dbl.div (Dbl.add (Dbl.sub b a) d) d))
                    else
                      let? a := rd start in
                      let? b := rd end_ in
                      let? s := rd step in
                      let x := Wide.add (Wide.sub b a) s in
                      if Wide.div_traps x s then Stuck
                      else Ret (Some (Wide.quot x s))
                  else Ret len) in
               Ret (step, dstep, len)
           else Ret (step, dstep, len)) in
        let '(step, dstep, len) := sdl in
        (* 407-415 *)
        let? ed :=
          (if negb (present endObj) then
             if useDoubles then
               let? a := rd dstart in
               let? d := rd dstep in
               let? n := rd len in
               let e := Dbl.add a (Dbl.mul d (Dbl.of_wide (Wide.sub n 1))) in
               Ret (Dbl.to_wide e, Some e)
             else
               let? a := rd start in
               let? s := rd step in
               let? n := rd len in
               let e := Wide.add a (Wide.mul s (Wide.sub n 1)) in
               Ret (Some e, Some (Dbl.of_wide e))
           else Ret (end_, dend)) in
        let '(end_, dend) := ed in
        Ret (Args {| l_start := start; l_end := end_; l_step := step;
                     l_len := len; l_dstart := dstart; l_dend := dend;
                     l_dstep := dstep |})
    end.

(** The object of line 420, [Tcl_NewStringObj] of the message. *)
Definition length_error_obj : Tcl_Obj :=
  {| refCount := 0; bytes := Some "max length of a Tcl list exceeded"%string;
     internalRep := NoRep |}.

(** The result is the status and the pointer stored through
    [arithSeriesObj], [None] when nothing is stored.  [interp] is used at
    lines 418-421 only ([Tcl_GetWideIntFromObj] accepts NULL): the message
    is created and handed to the interpreter, which keeps a reference to it
    ([Tcl_SetObjResult]); with a NULL [interp] that store goes through
    NULL.  What else the interpreter holds (its previous result, its error
    code) is the host's. *)
Definition TclNewArithSeriesObj (H : Host) (interp : InterpPtr)
    (useDoubles : bool) (startObj endObj stepObj lenObj : option Number)
    : M (status * option loc) :=
  i <- lift (infer useDoubles startObj endObj stepObj lenObj) ;;
  match i with
  | ZeroStep => p <- TclNewObj ;; ret (TCL_OK, Some p)
  | BadLength => ret (TCL_ERROR, None)
  | Args l =>
      n <- lift (rd (l_len l)) ;;
      (* 417-423 *)
      if (TCL_MAJOR_VERSION H <? 9) && (n >? ListSizeT_MAX H) then
        msg <- alloc_obj length_error_obj ;;
        match interp with
        | NULL => stuck
        | Interp => Tcl_IncrRefCount msg ;;; ret (TCL_ERROR, None)
        end
      else
        (* 425-430 *)
        p <- (if useDoubles then
                a <- lift (rd (l_dstart l)) ;;
                b <- lift (rd (l_dend l)) ;;
                d <- lift (rd (l_dstep l)) ;;
                TclNewArithSeriesDbl a b d n
              else
                a <- lift (rd (l_start l)) ;;
                b <- lift (rd (l_end l)) ;;
                s <- lift (rd (l_step l)) ;;
                TclNewArithSeriesInt a b s n) ;;
        ret (TCL_OK, Some p)
  end.

(** ** Length, index and step (lines 46-50, 450-536) *)

Definition TclArithSeriesObjLength (o : Tcl_Obj) : outcome Z :=
  let? r := rd (concrete_rep o) in Ret (len r).

(** The macro is one conditional expression whose second operand is a
    [double] and whose third is a [Tcl_WideInt]: by the usual arithmetic
    conversions its value has type [double] on both branches. *)
Definition ArithSeriesIndexM (r : ArithSeries) (index : Z) : double :=
  match bounds r with
  | DblBounds start _ step => Dbl.add start (Dbl.mul (Dbl.of_wide index) step)
  | IntBounds start _ step => Dbl.of_wide (Wide.add start (Wide.mul index step))
  end.

(** On [TCL_ERROR] the element is not assigned. *)
Definition TclArithSeriesObjIndex (o : Tcl_Obj) (index : Z)
    : outcome (status * option Number) :=
  let? r := rd (concrete_rep o) in          (* Tcl_Panic otherwise *)
  if (index <? 0) || (index >=? len r) then Ret (TCL_ERROR, None)
  else if isDouble r then
    Ret (TCL_OK, Some (Tcl_NewDoubleObj (ArithSeriesIndexM r index)))
  else
    let? v := rd (Dbl.to_wide (ArithSeriesIndexM r index)) in
    Ret (TCL_OK, Some (Tcl_NewWideIntObj v)).

Definition TclArithSeriesObjStep (o : Tcl_Obj) : outcome Number :=
  let? r := rd (concrete_rep o) in          (* Tcl_Panic otherwise *)
  match bounds r with
  | DblBounds _ _ step => Ret (Tcl_NewDoubleObj step)
  | IntBounds _ _ step => Ret (Tcl_NewWideIntObj step)
  end.

(** ** Cached elements *)

Fixpoint decr_all (ps : list loc) : M unit :=
  match ps with
  | nil => ret tt
  | p :: ps' => Tcl_DecrRefCount p ;;; decr_all ps'
  end.

(** The loop [for (i=0; i<len; i++) Tcl_DecrRefCount(elements[i])] followed
    by [ckfree(elements)]; an array that is no longer allocated cannot be
    read. *)
Definition release_elements (a : loc) (len : Z) : M unit :=
  fun s => match arrays s !! a with
           | None => Stuck
           | Some ps =>
               if Z.of_nat (length ps) <? len then Stuck
               else
                 (decr_all (take (Z.to_nat len) ps) ;;;
                  (fun s' => Ret (tt, {| objs := objs s';
                                         arrays := delete a (arrays s') |}))) s
           end.

(** ** DupArithSeriesRep (lines 136-147)

    [*copyArithSeries = *srcArithSeries] copies every field of the
    structure; the copy becomes the concrete representation of [copyPtr]. *)
Definition DupArithSeriesRep (srcPtr copyPtr : loc) : M unit :=
  srcArithSeries <- get_rep srcPtr ;;
  let copyArithSeries := srcArithSeries in
  set_rep copyPtr copyArithSeries.

(** ** FreeArithSeriesRep (lines 164-179) *)
Definition FreeArithSeriesRep (p : loc) : M unit :=
  o <- get_obj p ;;
  match concrete_rep o with
  | Some r =>
      (match elements r with
       | Some a => release_elements a (len r)
       | None => ret tt
       end) ;;;
      set_obj p {| refCount := refCount o; bytes := bytes o;
                   internalRep := NoRep |}
  | None => ret tt
  end.

(** ** TclArithSeriesObjRange (lines 614-694)

    The result is the returned pointer, [None] for NULL.  [startObj],
    [endObj] and [stepObj] are created by the index and step calls with no
    reference, retained once (lines 635-639) and released once (lines
    648-650, 689-691), which frees them: they do not outlive the call. *)
Definition TclArithSeriesObjRange (H : Host) (arithSeriesPtr : loc)
    (fromIdx toIdx : Z) : M (option loc) :=
  o <- get_obj arithSeriesPtr ;;
  arithSeriesRepPtr <- lift (rd (concrete_rep o)) ;;
  let fromIdx := if fromIdx <? 0 then 0 else fromIdx in
  if fromIdx >? toIdx then
    obj <- TclNewObj ;; ret (Some obj)
  else
    (* 634-639: the element is read back at once by Tcl_IncrRefCount *)
    si <- lift (TclArithSeriesObjIndex o fromIdx) ;;
    startObj <- lift (rd (snd si)) ;;
    ei <- lift (TclArithSeriesObjIndex o toIdx) ;;
    endObj <- lift (rd (snd ei)) ;;
    stepObj <- lift (TclArithSeriesObjStep o) ;;
    if Tcl_IsShared o || (refCount o >? 1) then
      (* 641-652 *)
      res <- TclNewArithSeriesObj H NULL (isDouble arithSeriesRepPtr)
               (Some startObj) (Some endObj) (Some stepObj) None ;;
      ret (match fst res with
           | TCL_OK => snd res
           | TCL_ERROR => None
           end)
    else
      (* 663 *)
      TclInvalidateStringRep arithSeriesPtr ;;;
      if isDouble arithSeriesRepPtr then
        (* 665-675: the five stores go through
           [(ArithSeriesDbl* )arithSeriesPtr], the Tcl_Obj itself, not its
           representation *)
        stuck
      else
        (* 677-687 *)
        start <- lift (rd (Tcl_GetWideIntFromObj startObj)) ;;
        end_ <- lift (rd (Tcl_GetWideIntFromObj endObj)) ;;
        step <- lift (rd (Tcl_GetWideIntFromObj stepObj)) ;;
        let x := Wide.add (Wide.sub end_ start) step in
        if Wide.div_traps x step then stuck
        else
          set_rep arithSeriesPtr
            {| bounds := IntBounds start end_ step;
               len := Wide.quot x step;
               elements := None |} ;;;
          ret (Some arithSeriesPtr).

(** ** TclArithSeriesObjReverse (lines 700-785)

    [startObj], [endObj] and [stepObj] are created by the index and step
    calls with no reference, retained at lines 717-721 and again at lines
    737-739, and released once, at lines 780-782: each is left in the store
    with one reference.  [lenObj] is created and freed within the copying
    branch. *)
Definition TclArithSeriesObjReverse (H : Host) (arithSeriesPtr : loc)
    : M (option loc) :=
  o <- get_obj arithSeriesPtr ;;
  arithSeriesRepPtr <- lift (rd (concrete_rep o)) ;;
  let isDouble := isDouble arithSeriesRepPtr in
  let len := len arithSeriesRepPtr in
  (* 716-721 *)
  si <- lift (TclArithSeriesObjIndex o (Wide.sub len 1)) ;;
  e <- lift (rd (snd si)) ;;
  startObj <- alloc_obj (number_obj e) ;;
  Tcl_IncrRefCount startObj ;;;
  ei <- lift (TclArithSeriesObjIndex o 0) ;;
  e <- lift (rd (snd ei)) ;;
  endObj <- alloc_obj (number_obj e) ;;
  Tcl_IncrRefCount endObj ;;;
  e <- lift (TclArithSeriesObjStep o) ;;
  stepObj <- alloc_obj (number_obj e) ;;
  Tcl_IncrRefCount stepObj ;;;
  (* 723-735: the step is negated and written back to stepObj *)
  startNum <- get_number startObj ;;
  endNum <- get_number endObj ;;
  stepNum <- get_number stepObj ;;
  negated <- lift (if isDouble then
                     let? dstep := rd (Tcl_GetDoubleFromObj stepNum) in
                     Ret (NumDbl (Dbl.neg dstep))
                   else
                     let? step := rd (Tcl_GetWideIntFromObj stepNum) in
                     Ret (NumInt (Wide.neg step))) ;;
  set_number stepObj negated ;;;
  (* 737-739 *)
  Tcl_IncrRefCount startObj ;;;
  Tcl_IncrRefCount endObj ;;;
  Tcl_IncrRefCount stepObj ;;;
  resultObj <-
    (if Tcl_IsShared o || (refCount o >? 1) then
       (* 741-748 *)
       lenObj <- alloc_obj (number_obj (Tcl_NewWideIntObj len)) ;;
       res <- TclNewArithSeriesObj H NULL isDouble
                (Some startNum) (Some endNum) (Some negated)
                (Some (Tcl_NewWideIntObj len)) ;;
       Tcl_DecrRefCount lenObj ;;;
       ret (match fst res with
            | TCL_OK => snd res
            | TCL_ERROR => None
            end)
     else
       (* 755-777 *)
       TclInvalidateStringRep arithSeriesPtr ;;;
       b <- lift (if isDouble then
                    let? dstart := rd (Tcl_GetDoubleFromObj startNum) in
                    let? dend := rd (Tcl_GetDoubleFromObj endNum) in
                    let? dstep := rd (Tcl_GetDoubleFromObj negated) in
                    Ret (DblBounds dstart dend dstep)
                  else
                    let? start := rd (Tcl_GetWideIntFromObj startNum) in
                    let? end_ := rd (Tcl_GetWideIntFromObj endNum) in
                    let? step := rd (Tcl_GetWideIntFromObj negated) in
                    Ret (IntBounds start end_ step)) ;;
       (match elements arithSeriesRepPtr with
        | Some a => release_elements a len
        | None => ret tt
        end) ;;;
       set_rep arithSeriesPtr {| bounds := b; len := len; elements := None |} ;;;
       ret (Some arithSeriesPtr)) ;;
  (* 780-782 *)
  Tcl_DecrRefCount startObj ;;;
  Tcl_DecrRefCount endObj ;;;
  Tcl_DecrRefCount stepObj ;;;
  ret resultObj.

(** ** TclArithSeriesGetElements (lines 790-856)

    Called with both [objcPtr] and [objvPtr]; the result is the status and,
    on [TCL_OK], the count and the array stored through them. *)

(** The loop of lines 832-839: [None] when an index fails. *)
Fixpoint fill_elements (o : Tcl_Obj) (indices : list Z) : M (option (list loc)) :=
  match indices with
  | nil => ret (Some nil)
  | i :: rest =>
      r <- lift (TclArithSeriesObjIndex o i) ;;
      match r with
      | (TCL_OK, Some e) =>
          q <- alloc_obj (number_obj e) ;;
          Tcl_IncrRefCount q ;;;
          qs <- fill_elements o rest ;;
          ret (match qs with
               | Some l => Some (q :: l)
               | None => None
               end)
      | _ => ret None
      end
  end.

Definition alloc_array (ps : list loc) : M loc :=
  fun s => let a := fresh (dom (arrays s)) in
           Ret (a, {| objs := objs s; arrays := <[a := ps]> (arrays s) |}).

Definition TclArithSeriesGetElements (arithSeriesObjPtr : loc)
    : M (status * option (Z * option loc)) :=
  o <- get_obj arithSeriesObjPtr ;;
  match concrete_rep o with
  | None => ret (TCL_ERROR, None)
  | Some arithSeriesPtr =>
      let objc := Wide.to_int (len arithSeriesPtr) in
      filled <-
        (if negb (objc =? 0) && present (elements arithSeriesPtr) then
           ret (Some (elements arithSeriesPtr))
         else if objc >? 0 then
           qs <- fill_elements o (seqZ 0 objc) ;;
           match qs with
           | Some l => a <- alloc_array l ;; ret (Some (Some a))
           | None => ret None
           end
         else ret (Some None)) ;;
      match filled with
      | None => ret (TCL_ERROR, None)
      | Some objv =>
          set_rep arithSeriesObjPtr
            {| bounds := bounds arithSeriesPtr; len := len arithSeriesPtr;
               elements := objv |} ;;;
          ret (TCL_OK, Some (objc, objv))
      end
  end.

(** ** UpdateStringOfArithSeries (lines 858-901) *)

Definition slen (s : string) : Z := Z.of_nat (String.length s).

(** Pass 1: the space needed. *)
Fixpoint pass1 (H : Host) (o : Tcl_Obj) (indices : list Z) (length : Z)
    : outcome Z :=
  match indices with
  | nil => Ret length
  | i :: rest =>
      let? r := TclArithSeriesObjIndex o i in
      match r with
      | (TCL_OK, Some eleObj) =>
          pass1 H o rest (length + (slen (Tcl_GetString H eleObj) + 1))
      | _ => pass1 H o rest length
      end
  end.

(** Pass 2: what has been written to the buffer up to [p]. *)
Fixpoint pass2 (H : Host) (o : Tcl_Obj) (indices : list Z) (written : string)
    : outcome string :=
  match indices with
  | nil => Ret written
  | i :: rest =>
      let? r := TclArithSeriesObjIndex o i in
      match r with
      | (TCL_OK, Some eleObj) =>
          pass2 H o rest (written ++ Tcl_GetString H eleObj ++ " ")%string
      | _ => pass2 H o rest written
      end
  end.

Definition set_bytes (p : loc) (str : string) : M unit :=
  o <- get_obj p ;;
  set_obj p {| refCount := refCount o; bytes := Some str;
               internalRep := internalRep o |}.

Definition UpdateStringOfArithSeries (H : Host) (arithSeriesObjPtr : loc)
    : M unit :=
  o <- get_obj arithSeriesObjPtr ;;
  n <- lift (TclArithSeriesObjLength o) ;;
  let llen := Wide.to_int n in
  if llen <=? 0 then set_bytes arithSeriesObjPtr EmptyString
  else
    length <- lift (pass1 H o (seqZ 0 llen) 0) ;;
    buf <- lift (pass2 H o (seqZ 0 llen) EmptyString) ;;
    (* bytes[length-1] = '\0'; length = length-1 *)
    set_bytes arithSeriesObjPtr (substring 0 (Z.to_nat (length - 1)) buf).


(** * Definitions used by the statements *)

(** The count as the specification words it: zero for a zero step,
    otherwise the floor quotient plus one, clamped at zero. *)
Definition bounds_calculator_spec (start end_ step : Z) : Z :=
  if step =? 0 then 0 else Z.max 0 ((end_ - start) / step + 1).

(** Integers that [double] represents exactly. *)
Definition small (z : Z) : Prop := - 2 ^ 53 <= z <= 2 ^ 53.

Definition nonzero_value (d : double) : bool :=
  match d with
  | S754_finite _ _ _ | S754_infinity _ => true
  | S754_zero _ | S754_nan => false
  end.

(** An integer series as construction leaves it: at least one element, a
    length the list size limit admits, a nonzero step, and a first and a
    last element (hence every element) that [double] represents exactly. *)
Definition ok_int (H : Host) (start step len : Z) : Prop :=
  1 <= len /\
  (TCL_MAJOR_VERSION H < 9 -> len <= ListSizeT_MAX H) /\
  step <> 0 /\ Wide.in_range step /\
  small start /\ small (start + (len - 1) * step).

(** The cached array of [r], when there is one, is allocated, holds [len]
    distinct live objects, and none of them is the series [p] itself. *)
Definition cache_ok (s : store) (p : loc) (r : ArithSeries) : Prop :=
  match elements r with
  | None => True
  | Some a =>
      exists ps, arrays s !! a = Some ps /\
                 Z.of_nat (length ps) = len r /\
                 NoDup ps /\ (p ∉ ps) /\
                 forall q, q ∈ ps -> is_Some (objs s !! q)
  end.

(** What a caller observes of a list value: its length and the result of
    indexing it at every position. *)
Definition same_elements (o1 o2 : Tcl_Obj) : Prop :=
  TclArithSeriesObjLength o1 = TclArithSeriesObjLength o2 /\
  forall i, TclArithSeriesObjIndex o1 i = TclArithSeriesObjIndex o2 i.

(** The text form as the specification words it: the elements' string
    forms, in order, separated by single spaces. *)
Definition text_form_spec (H : Host) (es : list Number) : string :=
  String.concat " " (map (Tcl_GetString H) es).

(** A host for the examples: Tcl 8 with the list size limit [INT_MAX];
    integers print in decimal (doubles are not printed in the examples). *)
Definition decimal (z : Z) : string := NilZero.string_of_int (Z.to_int z).

Definition tcl8 : Host :=
  {| TCL_MAJOR_VERSION := 8;
     ListSizeT_MAX := Wide.INT_MAX;
     Tcl_GetString := fun n => match n with
                               | NumInt i => decimal i
                               | NumDbl _ => EmptyString
                               end |}.

(** Tcl 9: no limit on the count (the test of line 417 is compiled out). *)
Definition tcl9 : Host :=
  {| TCL_MAJOR_VERSION := 9;
     ListSizeT_MAX := Wide.MAX;
     Tcl_GetString := Tcl_GetString tcl8 |}.

Definition empty_store : store := {| objs := ∅; arrays := ∅ |}.

(** Running a computation from the empty store. *)
Definition run {A} (m : M A) : outcome A :=
  match m empty_store with
  | Ret (a, _) => Ret a
  | Stuck => Stuck
  end.

(** The length of the value at [p] and the outcome of indexing it at every
    position, as a caller of [length] and [indexAt] sees them. *)
Definition observe (p : loc) : M (Z * list (outcome (status * option Number))) :=
  o <- get_obj p ;;
  n <- lift (TclArithSeriesObjLength o) ;;
  ret (n, map (TclArithSeriesObjIndex o) (seqZ 0 n)).

(** The pointer stored through [arithSeriesObj] by a successful
    construction, called as a command does, with its interpreter. *)
Definition construct (H : Host) (useDoubles : bool)
    (startObj endObj stepObj lenObj : option Number) : M loc :=
  r <- TclNewArithSeriesObj H Interp useDoubles startObj endObj stepObj lenObj ;;
  lift (rd (snd r)).

Definition returned (r : option loc) : M loc := lift (rd r).

(** 0.1, 0.2 and their neighbours, as binary64 values. *)
Definition d0_1 : double := Dbl.of_decimal 1 1.
Definition d0_2 : double := Dbl.of_decimal 2 1.

(** The float series 0.1, 0.1 + 0.2 (two elements), exclusively owned. *)
Definition float_pair : M loc :=
  construct tcl8 true (Some (NumDbl d0_1)) None (Some (NumDbl d0_2))
    (Some (NumInt 2)).

Definition float_pair_reversed_twice : M loc :=
  p <- float_pair ;;
  r1 <- TclArithSeriesObjReverse tcl8 p ;;
  p1 <- returned r1 ;;
  r2 <- TclArithSeriesObjReverse tcl8 p1 ;;
  returned r2.

(** The float series 0.0, 0.1, ... of six elements, held by two references. *)
Definition float_six_shared : M loc :=
  p <- construct tcl8 true (Some (NumDbl Dbl.zero)) None (Some (NumDbl d0_1))
         (Some (NumInt 6)) ;;
  Tcl_IncrRefCount p ;;;
  Tcl_IncrRefCount p ;;;
  ret p.

Definition float_six_full_range : M loc :=
  p <- float_six_shared ;;
  n <- (o <- get_obj p ;; lift (TclArithSeriesObjLength o)) ;;
  r <- TclArithSeriesObjRange tcl8 p 0 (n - 1) ;;
  returned r.

(** The same series with a single owner. *)
Definition float_six_owned_full_range : M (option loc) :=
  p <- construct tcl8 true (Some (NumDbl Dbl.zero)) None (Some (NumDbl d0_1))
         (Some (NumInt 6)) ;;
  TclArithSeriesObjRange tcl8 p 0 5.

(** The integer series 1 3 5 7 9 in a store of its own. *)
Definition odd_series : Tcl_Obj := series_obj (IntBounds 1 10 2) 5.
Definition odd_store : store := store_with empty_store 1%positive odd_series.


(** Modelled from the spec: the length the host's generic list abstraction
    reports for the values this file creates.  An abstract list reports its
    count; the untyped value with the empty string is the canonical empty
    container, of length 0. *)
Definition host_list_length (o : Tcl_Obj) : option Z :=
  match internalRep o with
  | AbstractListRep r => Some (len r)
  | NoRep => match bytes o with
             | Some EmptyString => Some 0
             | _ => None
             end
  | NumberRep _ => Some 1
  end.

(** The largest odd integer below 2^53 + 2: not a binary64 value. *)
Definition big_odd : Z := 9007199254740993.

(** [lseq 1 10 2] with its elements materialised, then duplicated into a
    freshly initialised object. *)
Definition cached_series : M loc :=
  p <- construct tcl8 false (Some (NumInt 1)) (Some (NumInt 10))
         (Some (NumInt 2)) None ;;
  TclArithSeriesGetElements p ;;;
  ret p.

Definition duplicated : M (loc * loc) :=
  p <- cached_series ;;
  c <- TclNewObj ;;
  DupArithSeriesRep p c ;;;
  ret (p, c).

(** A step "resolves to zero" when the variable tested at line 373 is zero:
    an integer 0 in either mode, a double that is zero in double mode, a
    double that truncates to 0 in integer mode. *)
Definition zero_step (useDoubles : bool) (stepObj : Number) : bool :=
  match stepObj with
  | NumInt i => i =? 0
  | NumDbl d =>
      if useDoubles then Dbl.eqb d Dbl.zero
      else match Dbl.to_wide d with
           | Some 0 => true
           | _ => false
           end
  end.






(** What pass 2 writes for the elements [es]: each string form followed by
    a space. *)
Fixpoint written_for (H : Host) (es : list Number) : string :=
  match es with
  | nil => EmptyString
  | e :: es' => (Tcl_GetString H e ++ " " ++ written_for H es')%string
  end.


(** * The rest of the file *)

(** ** Tcl_NewArithSeriesObj (lines 557-569)

    The constructor slot of the abstract list type: exactly four values,
    always integers ([useDoubles] is 0); NULL on any failure.  Reading
    [objv] beyond what the caller passed has no defined result. *)
Definition Tcl_NewArithSeriesObj (H : Host) (objc : Z) (objv : list Number)
    : M (option loc) :=
  if negb (objc =? 4) then ret None
  else
    start <- lift (rd (objv !! 0%nat)) ;;
    end_ <- lift (rd (objv !! 1%nat)) ;;
    step <- lift (rd (objv !! 2%nat)) ;;
    len <- lift (rd (objv !! 3%nat)) ;;
    res <- TclNewArithSeriesObj H NULL false (Some start) (Some end_)
             (Some step) (Some len) ;;
    ret (match fst res with
         | TCL_OK => snd res
         | TCL_ERROR => None
         end).

(** * Definitions used by the further statements *)

(** A finite double. *)
Definition finite (d : double) : bool :=
  match d with
  | S754_zero _ | S754_finite _ _ _ => true
  | S754_infinity _ | S754_nan => false
  end.

(** An object as [TclArithSeriesGetElements] leaves it in the cache: one
    reference, no string, the number [e]. *)
Definition element_obj (e : Number) : Tcl_Obj :=
  {| refCount := 1; bytes := None; internalRep := NumberRep e |}.

(** The elements of an integer series, as integers. *)
Definition int_elements (a st n : Z) : list Number :=
  map (fun i => NumInt (a + i * st)) (seqZ 0 n).

(** The object [o] with the representation [r]. *)
Definition with_rep (o : Tcl_Obj) (r : ArithSeries) : Tcl_Obj :=
  {| refCount := refCount o; bytes := bytes o; internalRep := AbstractListRep r |}.

(** The integer series 1 3 5 7 9 with its elements materialised: the array
    at address 1 holds the objects 2 to 6. *)
Definition odd_cached_series : Tcl_Obj :=
  with_rep odd_series
    {| bounds := IntBounds 1 10 2; len := 5; elements := Some 1%positive |}.
Definition odd_store_cached : store :=
  {| objs := <[1%positive := odd_cached_series]>
               (list_to_map (zip [2%positive; 3%positive; 4%positive;
                                  5%positive; 6%positive]
                               (element_obj <$> int_elements 1 2 5)));
     arrays := {[ 1%positive := [2%positive; 3%positive; 4%positive;
                                 5%positive; 6%positive] ]} |}.

(** What [Tcl_DecrRefCount] leaves of an object: nothing when it held at
    most one reference, the object with one reference less otherwise. *)
Definition released (o : Tcl_Obj) : option Tcl_Obj :=
  if refCount o <=? 1 then None
  else Some {| refCount := refCount o - 1; bytes := bytes o;
               internalRep := internalRep o |}.


(** The float series 0.0, 0.1, ... of six elements with no reference yet,
    in a store of its own. *)
Definition float_series : Tcl_Obj :=
  series_obj (DblBounds Dbl.zero
                (Dbl.add Dbl.zero (Dbl.mul d0_1 (Dbl.of_wide 5))) d0_1) 6.
Definition float_store : store := store_with empty_store 1%positive float_series.

(** The materialised series together with a freshly created object, the
    target of a duplication. *)
Definition odd_store_cached_and_copy : store :=
  store_with odd_store_cached 7%positive empty_obj.

(** An integer series of 2^32 elements. *)
Definition wide_series : Tcl_Obj := series_obj (IntBounds 0 (2 ^ 32 - 1) 1) (2 ^ 32).
Definition wide_store : store := store_with empty_store 1%positive wide_series.

(** A numeric object that one reference keeps allocated. *)
Definition retained_number (n : Number) : Tcl_Obj :=
  {| refCount := 1; bytes := None; internalRep := NumberRep n |}.

(** * Reasoning about computations *)

(** [m] returns from [s], and [Q] holds of its result and final store. *)
Definition wp {A} (m : M A) (Q : A -> store -> Prop) (s : store) : Prop :=
  exists a s', m s = Ret (a, s') /\ Q a s'.


(** * Properties *)

(** ** Wide arithmetic *)

Ltac wide_consts :=
  unfold Wide.in_range, Wide.MIN, Wide.MAX, Wide.INT_MAX in *;
  change (2 ^ 64) with 18446744073709551616 in *;
  change (2 ^ 63) with 9223372036854775808 in *;
  change (2 ^ 53) with 9007199254740992 in *;
  change (2 ^ 32) with 4294967296 in *;
  change (2 ^ 31) with 2147483648 in *.

Lemma wrap_in_range z : Wide.in_range z -> Wide.wrap z = z.
Proof.
  unfold Wide.wrap. wide_consts. intros Hz.
  rewrite Z.mod_small; lia.
Qed.

Lemma wrap_range z : Wide.in_range (Wide.wrap z).
Proof.
  unfold Wide.wrap. wide_consts.
  pose proof (Z.mod_pos_bound (z + 9223372036854775808) 18446744073709551616).
  lia.
Qed.

Lemma to_int_small z : - 2 ^ 31 <= z <= Wide.INT_MAX -> Wide.to_int z = z.
Proof.
  unfold Wide.to_int. wide_consts. intros Hz.
  rewrite Z.mod_small; lia.
Qed.

(** ** The length computation *)

(** C1, as stated, fails: a range that runs against the step yields the
    sentinel -1, not 0, and the quotient is truncated, not floored. *)
Lemma C1_sentinel_counterexample :
  ArithSeriesLen 0 (-5) 1 = -1 /\
  ~ 0 <= ArithSeriesLen 0 (-5) 1 /\
  ArithSeriesLen 0 (-5) 1 <> bounds_calculator_spec 0 (-5) 1 /\
  ArithSeriesLen 0 1 (-2) = 1 /\
  bounds_calculator_spec 0 1 (-2) = 0.
Proof. vm_compute. repeat split; congruence. Qed.

(** C1 (amended): without overflow, [ArithSeriesLen] is 0 for a zero step
    and otherwise one plus the quotient truncated toward zero, replaced by
    -1 when that is negative; the result is at least -1, and when the range
    runs with the step it is the floor quotient plus one. *)
Theorem C1_ArithSeriesLen_truncates_with_sentinel (start end_ step : Z) :
  Wide.in_range (end_ - start) ->
  Wide.in_range (1 + (end_ - start) ÷ step) ->
  ArithSeriesLen start end_ step =
    (if step =? 0 then 0
     else if 1 + (end_ - start) ÷ step <? 0 then -1
          else 1 + (end_ - start) ÷ step) /\
  -1 <= ArithSeriesLen start end_ step /\
  (step <> 0 -> 0 <= (end_ - start) * step ->
   ArithSeriesLen start end_ step = (end_ - start) / step + 1 /\
   ArithSeriesLen start end_ step = bounds_calculator_spec start end_ step).
Proof.
  intros Hd Hq.
  assert (Hlen : ArithSeriesLen start end_ step =
    (if step =? 0 then 0
     else if 1 + (end_ - start) ÷ step <? 0 then -1
          else 1 + (end_ - start) ÷ step)).
  { unfold ArithSeriesLen, Wide.add, Wide.quot, Wide.sub.
    destruct (Z.eqb_spec step 0) as [->|Hs]; [reflexivity|]. cbn [negb].
    rewrite (wrap_in_range (end_ - start)) by assumption.
    assert (Hq' : Wide.in_range ((end_ - start) ÷ step)).
    { pose proof (Z.quot_le_upper_bound).
      assert (Z.abs ((end_ - start) ÷ step) <= Z.abs (end_ - start)).
      { rewrite <- Z.quot_abs by assumption.
        apply Z.quot_le_upper_bound; [lia|].
        assert (1 <= Z.abs step) by lia. nia. }
      wide_consts. lia. }
    rewrite (wrap_in_range _ Hq'), (wrap_in_range _ Hq). reflexivity. }
  split; [exact Hlen|]. split.
  - rewrite Hlen. destruct (step =? 0); [lia|].
    destruct (Z.ltb_spec (1 + (end_ - start) ÷ step) 0); lia.
  - intros Hs Hsign.
    assert (Hquot : (end_ - start) ÷ step = (end_ - start) / step).
    { destruct (Z.eq_dec (end_ - start) 0) as [E|E].
      - rewrite E. rewrite Z.quot_0_l, Z.div_0_l by assumption. reflexivity.
      - destruct (Z.lt_trichotomy step 0) as [Hneg|[?|Hpos]]; [|lia|].
        + assert (end_ - start < 0) by nia.
          rewrite <- (Z.opp_involutive (end_ - start)) at 1.
          rewrite <- (Z.opp_involutive step) at 1.
          rewrite Z.quot_opp_opp by lia.
          rewrite Z.quot_div_nonneg by lia.
          rewrite Z.div_opp_opp by lia. reflexivity.
        + assert (0 < end_ - start) by nia.
          apply Z.quot_div_nonneg; lia. }
    assert (Hnn : 0 <= (end_ - start) / step).
    { rewrite <- Hquot.
      destruct (Z.lt_trichotomy step 0) as [Hneg|[?|Hpos]]; [|lia|].
      - rewrite <- (Z.opp_involutive (end_ - start)), <- (Z.opp_involutive step).
        rewrite Z.quot_opp_opp by lia. apply Z.quot_pos; nia.
      - apply Z.quot_pos; nia. }
    unfold bounds_calculator_spec. rewrite Hlen.
    destruct (Z.eqb_spec step 0); [lia|]. rewrite Hquot.
    destruct (Z.ltb_spec (1 + (end_ - start) / step) 0); lia.
Qed.

Lemma C1_ArithSeriesLen_witness :
  Wide.in_range (10 - 1) /\ Wide.in_range (1 + (10 - 1) ÷ 2) /\
  ArithSeriesLen 1 10 2 = 5.
Proof.
  split; [vm_compute; split; discriminate|].
  split; [vm_compute; split; discriminate|].
  pose proof (C1_ArithSeriesLen_truncates_with_sentinel 1 10 2) as H.
  destruct H as [H _].
  - vm_compute; split; discriminate.
  - vm_compute; split; discriminate.
  - rewrite H. reflexivity.
Defined.

(** ** Conversions between Tcl_WideInt and double *)

Lemma digits2_pos_size m : digits2_pos m = Pos.size m.
Proof. induction m; simpl; congruence. Qed.

Lemma size_lower m : 2 ^ (Z.pos (Pos.size m) - 1) <= Z.pos m.
Proof.
  pose proof (Pos.size_le m) as H.
  assert (H' : 2 ^ Z.pos (Pos.size m) <= 2 * Z.pos m).
  { change (2 * Z.pos m) with (Z.pos m~0).
    rewrite <- (Pos2Z.inj_pow 2 (Pos.size m)). apply Pos2Z.pos_le_pos, H. }
  replace (Z.pos (Pos.size m)) with (Z.pos (Pos.size m) - 1 + 1) in H' by lia.
  rewrite Z.pow_add_r in H' by lia. lia.
Qed.

Lemma size_upper m : Z.pos m < 2 ^ Z.pos (Pos.size m).
Proof.
  pose proof (Pos.size_gt m) as H.
  rewrite <- (Pos2Z.inj_pow 2 (Pos.size m)). apply Pos2Z.pos_lt_pos, H.
Qed.

Lemma size_le_bound m k : 0 <= k -> Z.pos m < 2 ^ k -> Z.pos (Pos.size m) <= k.
Proof.
  intros Hk Hm. pose proof (size_lower m) as Hl.
  destruct (Z.le_gt_cases (Z.pos (Pos.size m)) k) as [|Hgt]; [assumption|].
  exfalso.
  assert (2 ^ k <= 2 ^ (Z.pos (Pos.size m) - 1)) by (apply Z.pow_le_mono_r; lia).
  lia.
Qed.

Lemma iter_xO_value m k : Z.pos (Pos.iter xO m k) = Z.pos m * 2 ^ Z.pos k.
Proof.
  induction k as [|k IH] using Pos.peano_ind.
  - simpl. lia.
  - rewrite Pos.iter_succ, Pos2Z.inj_succ, Z.pow_succ_r by lia.
    rewrite Pos2Z.inj_xO, IH. lia.
Qed.

Lemma iter_xO_size m k : Pos.size (Pos.iter xO m k) = (Pos.size m + k)%positive.
Proof.
  induction k as [|k IH] using Pos.peano_ind.
  - simpl. lia.
  - rewrite Pos.iter_succ. simpl. rewrite IH. lia.
Qed.

(** A mantissa of 53 digits needs no rounding. *)
Lemma binary_round_aux_canonical sx mz ez :
  Z.pos (Pos.size mz) = 53 -> -1074 <= ez <= 971 ->
  binary_round_aux Dbl.prec Dbl.emax sx (Z.pos mz) ez loc_Exact
  = S754_finite sx mz ez.
Proof.
  intros Hsize He.
  unfold binary_round_aux, shr_fexp, fexp, emin, Dbl.prec, Dbl.emax.
  cbn [Zdigits2 shr_record_of_loc]. rewrite digits2_pos_size, Hsize.
  replace (Z.max (53 + ez - 53) (3 - 1024 - 53) - ez) with 0 by lia.
  cbn [shr shr_m loc_of_shr_record round_nearest_even Zdigits2 shr_record_of_loc].
  rewrite digits2_pos_size, Hsize.
  replace (Z.max (53 + ez - 53) (3 - 1024 - 53) - ez) with 0 by lia.
  cbn [shr shr_m].
  replace (ez <=? 1024 - 53) with true by (symmetry; apply Z.leb_le; lia).
  reflexivity.
Qed.

Lemma of_wide_pos_small m :
  Z.pos m < 2 ^ 53 ->
  exists mz ez, binary_round Dbl.prec Dbl.emax false m 0 = S754_finite false mz ez
             /\ binary_round Dbl.prec Dbl.emax true m 0 = S754_finite true mz ez
             /\ ez <= 0 /\ Z.pos mz = Z.pos m * 2 ^ (- ez).
Proof.
  intros Hm.
  pose proof (size_le_bound m 53 ltac:(lia) Hm) as Hd.
  unfold binary_round, fexp, emin, Dbl.prec, Dbl.emax, shl_align.
  rewrite digits2_pos_size.
  replace (Z.max (Z.pos (Pos.size m) + 0 - 53) (3 - 1024 - 53) - 0)
    with (Z.pos (Pos.size m) - 53) by lia.
  replace (Z.max (Z.pos (Pos.size m) + 0 - 53) (3 - 1024 - 53))
    with (Z.pos (Pos.size m) - 53) by lia.
  destruct (Z.pos (Pos.size m) - 53) as [|d|d] eqn:E; [| lia |].
  - exists m, 0. rewrite !binary_round_aux_canonical by lia.
    repeat split; lia.
  - exists (Pos.iter xO m d), (Z.neg d).
    assert (Hs : Z.pos (Pos.size (Pos.iter xO m d)) = 53).
    { rewrite iter_xO_size. lia. }
    rewrite !binary_round_aux_canonical by lia.
    repeat split; [lia|]. rewrite iter_xO_value. reflexivity.
Qed.

(** Integers of magnitude at most 2^53 survive the round trip through
    [double]. *)
Lemma to_wide_of_wide z : small z -> Dbl.to_wide (Dbl.of_wide z) = Some z.
Proof.
  unfold small. intros Hz.
  destruct (Z.eq_dec z (2 ^ 53)) as [->|Hne1]; [vm_compute; reflexivity|].
  destruct (Z.eq_dec z (- 2 ^ 53)) as [->|Hne2]; [vm_compute; reflexivity|].
  destruct z as [|m|m]; [vm_compute; reflexivity | |].
  - destruct (of_wide_pos_small m ltac:(lia)) as (mz & ez & E & _ & Hez & Hv).
    unfold Dbl.of_wide, binary_normalize. rewrite E.
    unfold Dbl.to_wide, Dbl.trunc. rewrite Hv.
    destruct (Z.leb_spec 0 ez).
    + replace ez with 0 by lia. change (2 ^ (- 0)) with 1. change (2 ^ 0) with 1.
      rewrite !Z.mul_1_r.
      replace ((Wide.MIN <=? Z.pos m) && (Z.pos m <=? Wide.MAX)) with true; [reflexivity|].
      symmetry. apply andb_true_intro. wide_consts. split; [apply Z.leb_le|apply Z.leb_le]; lia.
    + rewrite Z.div_mul by (apply Z.pow_nonzero; lia).
      replace ((Wide.MIN <=? Z.pos m) && (Z.pos m <=? Wide.MAX)) with true; [reflexivity|].
      symmetry. apply andb_true_intro. wide_consts. split; [apply Z.leb_le|apply Z.leb_le]; lia.
  - destruct (of_wide_pos_small m ltac:(lia)) as (mz & ez & _ & E & Hez & Hv).
    unfold Dbl.of_wide, binary_normalize. rewrite E.
    unfold Dbl.to_wide, Dbl.trunc. rewrite Hv.
    destruct (Z.leb_spec 0 ez).
    + replace ez with 0 by lia. change (2 ^ (- 0)) with 1. change (2 ^ 0) with 1.
      rewrite !Z.mul_1_r.
      replace ((Wide.MIN <=? - Z.pos m) && (- Z.pos m <=? Wide.MAX)) with true; [reflexivity|].
      symmetry. apply andb_true_intro. wide_consts. split; [apply Z.leb_le|apply Z.leb_le]; lia.
    + rewrite Z.div_mul by (apply Z.pow_nonzero; lia).
      replace ((Wide.MIN <=? - Z.pos m) && (- Z.pos m <=? Wide.MAX)) with true; [reflexivity|].
      symmetry. apply andb_true_intro. wide_consts. split; [apply Z.leb_le|apply Z.leb_le]; lia.
Qed.

(** A nonzero integer never rounds to zero. *)

Lemma shr_1_m r : 0 <= shr_m r -> shr_m (shr_1 r) = shr_m r / 2.
Proof.
  rewrite <- Z.div2_div.
  destruct r as [m r s]. destruct m as [|[p|p|]|p]; simpl; intros; try reflexivity; lia.
Qed.

Lemma iter_shr_1_m k : forall r,
  0 <= shr_m r -> shr_m (SpecFloat.iter_pos shr_1 k r) = shr_m r / 2 ^ Z.pos k.
Proof.
  assert (Hnn : forall a b, 0 <= a -> 0 < b -> 0 <= a / b)
    by (intros; apply Z.div_pos; lia).
  induction k as [k IH|k IH|]; intros r Hr; cbn [SpecFloat.iter_pos].
  - assert (H1 : 0 <= shr_m (shr_1 r))
      by (rewrite shr_1_m by assumption; apply Hnn; lia).
    assert (H2 : 0 <= shr_m (SpecFloat.iter_pos shr_1 k (shr_1 r)))
      by (rewrite IH by assumption; apply Hnn; [assumption|apply Z.pow_pos_nonneg; lia]).
    rewrite IH, IH, shr_1_m by assumption.
    rewrite !Z.div_div by (try apply Z.pow_pos_nonneg; lia).
    f_equal. change (Z.pos k~1) with (2 * Z.pos k + 1).
    replace (2 * Z.pos k + 1) with (1 + Z.pos k + Z.pos k) by lia.
    rewrite !Z.pow_add_r by lia. change (2 ^ 1) with 2. lia.
  - assert (H2 : 0 <= shr_m (SpecFloat.iter_pos shr_1 k r))
      by (rewrite IH by assumption; apply Hnn; [assumption|apply Z.pow_pos_nonneg; lia]).
    rewrite IH, IH by assumption.
    rewrite !Z.div_div by (try apply Z.pow_pos_nonneg; lia).
    f_equal. change (Z.pos k~0) with (2 * Z.pos k).
    replace (2 * Z.pos k) with (Z.pos k + Z.pos k) by lia.
    rewrite !Z.pow_add_r by lia. reflexivity.
  - rewrite shr_1_m by assumption. reflexivity.
Qed.

Lemma shr_record_of_loc_m m l : shr_m (shr_record_of_loc m l) = m.
Proof. destruct l as [|[]]; reflexivity. Qed.

Lemma shr_fexp_pos p e l :
  -1074 <= e ->
  0 < shr_m (fst (shr_fexp Dbl.prec Dbl.emax (Z.pos p) e l)) /\
  -1074 <= snd (shr_fexp Dbl.prec Dbl.emax (Z.pos p) e l).
Proof.
  intros He.
  unfold shr_fexp, shr, fexp, emin, Dbl.prec, Dbl.emax. cbn [Zdigits2].
  rewrite digits2_pos_size.
  destruct (Z.max (Z.pos (Pos.size p) + e - 53) (3 - 1024 - 53) - e)
    as [|n|n] eqn:E; cbn [fst snd]; rewrite ?shr_record_of_loc_m; try lia.
  rewrite iter_shr_1_m by (rewrite shr_record_of_loc_m; lia).
  rewrite shr_record_of_loc_m.
  split; [|lia].
  apply Z.div_str_pos. split; [apply Z.pow_pos_nonneg; lia|].
  pose proof (size_lower p) as Hl.
  assert (2 ^ Z.pos n <= 2 ^ (Z.pos (Pos.size p) - 1)) by (apply Z.pow_le_mono_r; lia).
  lia.
Qed.

Lemma binary_round_aux_nonzero sx p e l :
  -1074 <= e ->
  nonzero_value (binary_round_aux Dbl.prec Dbl.emax sx (Z.pos p) e l) = true.
Proof.
  intros He. unfold binary_round_aux.
  pose proof (shr_fexp_pos p e l He) as [H1 H1e].
  destruct (shr_fexp Dbl.prec Dbl.emax (Z.pos p) e l) as [mrs' e'].
  cbn [fst snd] in H1, H1e.
  assert (H2 : 0 < round_nearest_even (shr_m mrs') (loc_of_shr_record mrs')).
  { unfold round_nearest_even.
    destruct (loc_of_shr_record mrs') as [|[]]; try lia.
    destruct (Z.even (shr_m mrs')); lia. }
  destruct (round_nearest_even (shr_m mrs') (loc_of_shr_record mrs')) as [|p2|p2];
    try lia.
  pose proof (shr_fexp_pos p2 e' loc_Exact H1e) as [H3 _].
  destruct (shr_fexp Dbl.prec Dbl.emax (Z.pos p2) e' loc_Exact) as [mrs'' e''].
  cbn [fst] in H3.
  destruct (shr_m mrs'') as [|p3|p3]; try lia.
  destruct (e'' <=? Dbl.emax - Dbl.prec); reflexivity.
Qed.

Lemma of_wide_nonzero z : z <> 0 -> nonzero_value (Dbl.of_wide z) = true.
Proof.
  intros Hz. unfold Dbl.of_wide, binary_normalize.
  destruct z as [|m|m]; [congruence| |];
    unfold binary_round, shl_align;
    match goal with
    | |- context [fexp ?a ?b ?c - 0] =>
        assert (Hf : -1074 <= fexp a b c)
          by (unfold fexp, emin, Dbl.prec, Dbl.emax; lia);
        destruct (fexp a b c - 0) eqn:E
    end;
    apply binary_round_aux_nonzero; lia.
Qed.

Lemma eqb_zero_nonzero d : nonzero_value d = true -> Dbl.eqb d Dbl.zero = false.
Proof. destruct d as [s|s| |s m e]; try discriminate; destruct s; reflexivity. Qed.

(** The test [dstep == 0] on a converted integer step. *)
Lemma of_wide_eqb_zero z : Dbl.eqb (Dbl.of_wide z) Dbl.zero = (z =? 0).
Proof.
  destruct (Z.eqb_spec z 0) as [->|Hz]; [reflexivity|].
  apply eqb_zero_nonzero, of_wide_nonzero, Hz.
Qed.

(** ** The store *)

Arguments Dbl.of_wide : simpl never.
Arguments Dbl.to_wide : simpl never.
Arguments Dbl.eqb : simpl never.
Arguments Wide.wrap : simpl never.
Arguments Wide.quot : simpl never.
Arguments Wide.div_traps : simpl never.
Arguments ArithSeriesLen : simpl never.

Lemma alloc_loc_fresh s : objs s !! alloc_loc s = None.
Proof. unfold alloc_loc. apply not_elem_of_dom, is_fresh. Qed.

Lemma alloc_loc_ne s p o : objs s !! p = Some o -> alloc_loc s <> p.
Proof. intros Hp E. rewrite <- E, alloc_loc_fresh in Hp. discriminate. Qed.

Lemma lookup_store_with_eq s p o : objs (store_with s p o) !! p = Some o.
Proof. apply lookup_insert_eq. Qed.

Lemma lookup_store_with_ne s p q o :
  p <> q -> objs (store_with s p o) !! q = objs s !! q.
Proof. intros. apply lookup_insert_ne. assumption. Qed.

Lemma lookup_alloc s o p x :
  objs s !! p = Some x -> objs (store_with s (alloc_loc s) o) !! p = Some x.
Proof.
  intros Hp. rewrite lookup_store_with_ne; [assumption|].
  eapply alloc_loc_ne, Hp.
Qed.

(** ** Indexing an integer series *)

Lemma ok_int_elem H a st n i :
  ok_int H a st n -> 0 <= i < n ->
  small (a + i * st) /\ Wide.in_range (i * st).
Proof.
  unfold ok_int, small. intros (Hn & _ & _ & _ & Ha & Hl) Hi. wide_consts.
  assert (Hc : 0 <= i * st <= (n - 1) * st \/ (n - 1) * st <= i * st <= 0).
  { destruct (Z.le_gt_cases 0 st); [left|right]; nia. }
  split; lia.
Qed.

Lemma small_in_range z : small z -> Wide.in_range z.
Proof. unfold small. wide_consts. lia. Qed.

Lemma index_int H o a e st n c i :
  concrete_rep o = Some {| bounds := IntBounds a e st; len := n; elements := c |} ->
  ok_int H a st n -> 0 <= i < n ->
  TclArithSeriesObjIndex o i = Ret (TCL_OK, Some (NumInt (a + i * st))).
Proof.
  intros Hrep Hok Hi. destruct (ok_int_elem H a st n i Hok Hi) as [Hs Hr].
  unfold TclArithSeriesObjIndex. rewrite Hrep. cbn.
  replace ((i <? 0) || (i >=? n)) with false
    by lia.
  unfold ArithSeriesIndexM, Wide.add, Wide.mul. cbn.
  rewrite (wrap_in_range (i * st)) by assumption.
  rewrite (wrap_in_range (a + i * st)) by (apply small_in_range; assumption).
  rewrite to_wide_of_wide by assumption. reflexivity.
Qed.

Lemma index_out_of_range o r i :
  concrete_rep o = Some r -> i < 0 \/ len r <= i ->
  TclArithSeriesObjIndex o i = Ret (TCL_ERROR, None).
Proof.
  intros Hrep Hi. unfold TclArithSeriesObjIndex. rewrite Hrep. cbn.
  replace ((i <? 0) || (i >=? len r)) with true by lia. reflexivity.
Qed.

(** ** Constructing an integer series from integer arguments *)

Lemma new_series_int a b st n s :
  1 <= n ->
  TclNewArithSeriesInt a b st n s
  = Ret (alloc_loc s, store_with s (alloc_loc s) (series_obj (IntBounds a b st) n)).
Proof.
  intros Hn. unfold TclNewArithSeriesInt, bind, ret.
  replace (n >=? 0) with true by lia. replace (n <=? 0) with false by lia.
  reflexivity.
Qed.

Lemma div_traps_false x st :
  st <> 0 -> 1 <= Wide.quot x st -> Wide.div_traps x st = false.
Proof.
  intros Hst Hq. unfold Wide.div_traps.
  replace (st =? 0) with false by lia. cbn [orb].
  destruct (Z.eqb_spec x Wide.MIN) as [->|]; [|reflexivity].
  destruct (Z.eqb_spec st (-1)) as [->|]; [|reflexivity].
  exfalso. vm_compute in Hq. apply Hq. reflexivity.
Qed.

Lemma new_int_with_len H interp a b st n s :
  st <> 0 -> 1 <= n -> (TCL_MAJOR_VERSION H < 9 -> n <= ListSizeT_MAX H) ->
  TclNewArithSeriesObj H interp false (Some (NumInt a)) (Some (NumInt b))
    (Some (NumInt st)) (Some (NumInt n)) s
  = Ret ((TCL_OK, Some (alloc_loc s)),
         store_with s (alloc_loc s) (series_obj (IntBounds a b st) n)).
Proof.
  intros Hst Hn Hsize.
  unfold TclNewArithSeriesObj, infer, bind, lift. cbn.
  rewrite of_wide_eqb_zero. destruct (Z.eqb_spec st 0) as [|_]; [contradiction|].
  cbn.
  replace ((TCL_MAJOR_VERSION H <? 9) && (n >? ListSizeT_MAX H)) with false
    by lia.
  cbn. rewrite new_series_int by assumption. reflexivity.
Qed.

Lemma new_int_without_len H interp a b st s :
  let n := Wide.quot (Wide.add (Wide.sub b a) st) st in
  st <> 0 -> 1 <= n -> (TCL_MAJOR_VERSION H < 9 -> n <= ListSizeT_MAX H) ->
  TclNewArithSeriesObj H interp false (Some (NumInt a)) (Some (NumInt b))
    (Some (NumInt st)) None s
  = Ret ((TCL_OK, Some (alloc_loc s)),
         store_with s (alloc_loc s) (series_obj (IntBounds a b st) n)).
Proof.
  intros n Hst Hn Hsize.
  unfold TclNewArithSeriesObj, infer, bind, lift. cbn.
  rewrite of_wide_eqb_zero. destruct (Z.eqb_spec st 0) as [|_]; [contradiction|].
  cbn. rewrite (div_traps_false _ st Hst Hn). cbn. fold n.
  replace ((TCL_MAJOR_VERSION H <? 9) && (n >? ListSizeT_MAX H)) with false
    by lia.
  cbn. rewrite new_series_int by assumption. reflexivity.
Qed.

(** ** Releasing cached elements *)

Lemma decr_all_effect ps : forall s,
  NoDup ps -> (forall q, q ∈ ps -> is_Some (objs s !! q)) ->
  exists s', decr_all ps s = Ret (tt, s') /\ arrays s' = arrays s /\
             (forall x, x ∉ ps -> objs s' !! x = objs s !! x) /\
             (forall q oq, q ∈ ps -> objs s !! q = Some oq ->
                           objs s' !! q = released oq).
Proof.
  induction ps as [|q qs IH]; intros s Hnd Hall.
  - exists s. repeat split. intros q oq Hq. inversion Hq.
  - apply NoDup_cons in Hnd as [Hq Hnd].
    destruct (Hall q) as [oq Eq]; [left|].
    assert (Hrest : forall s1, arrays s1 = arrays s ->
              objs s1 !! q = released oq ->
              (forall x, x <> q -> objs s1 !! x = objs s !! x) ->
              exists s', decr_all qs s1 = Ret (tt, s') /\ arrays s' = arrays s /\
                (forall x, x ∉ q :: qs -> objs s' !! x = objs s !! x) /\
                (forall q' oq', q' ∈ q :: qs -> objs s !! q' = Some oq' ->
                                objs s' !! q' = released oq')).
    { intros s1 Ha Hq1 Ho.
      destruct (IH s1 Hnd) as (s' & E & Ha' & Hf & He).
      - intros q' Hq'. rewrite Ho by (intros ->; contradiction).
        apply Hall. right. assumption.
      - exists s'. split; [assumption|]. split; [congruence|]. split.
        + intros x Hx. apply not_elem_of_cons in Hx as [Hxq Hx].
          rewrite Hf by assumption. apply Ho. assumption.
        + intros q' oq' Hq' Hs. apply elem_of_cons in Hq' as [->|Hq'].
          * rewrite Hf by assumption. rewrite Hq1. congruence.
          * apply He; [assumption|]. rewrite Ho by (intros ->; contradiction).
            assumption. }
    cbn [decr_all]. unfold bind at 1. unfold Tcl_DecrRefCount, bind, get_obj.
    rewrite Eq. unfold released in Hrest.
    destruct (refCount oq <=? 1).
    + apply Hrest; [reflexivity| |].
      * cbn. apply lookup_delete_eq.
      * intros x Hx. cbn. apply lookup_delete_ne. congruence.
    + apply Hrest; [reflexivity| |].
      * apply lookup_store_with_eq.
      * intros x Hx. apply lookup_store_with_ne. congruence.
Qed.

Lemma release_elements_effect s a ps n :
  arrays s !! a = Some ps -> Z.of_nat (length ps) = n -> NoDup ps ->
  (forall q, q ∈ ps -> is_Some (objs s !! q)) ->
  exists s', release_elements a n s = Ret (tt, s') /\
             arrays s' = delete a (arrays s) /\
             (forall x, x ∉ ps -> objs s' !! x = objs s !! x) /\
             (forall q oq, q ∈ ps -> objs s !! q = Some oq ->
                           objs s' !! q = released oq).
Proof.
  intros Ea Hlen Hnd Hall.
  unfold release_elements. rewrite Ea.
  replace (Z.of_nat (length ps) <? n) with false by lia.
  rewrite take_ge by lia.
  destruct (decr_all_effect ps s Hnd Hall) as (s' & E & Ha & Hf & He).
  unfold bind. rewrite E. eexists. split; [reflexivity|].
  cbn. rewrite Ha. repeat split; assumption.
Qed.

(** ** Rules for [wp] and [wlp] *)

Lemma wp_bind {A B} (m : M A) (k : A -> M B) Q s :
  wp m (fun a s1 => wp (k a) Q s1) s -> wp (x <- m ;; k x) Q s.
Proof.
  intros (a & s1 & E & b & s2 & E2 & HQ). exists b, s2.
  split; [|exact HQ]. unfold bind. rewrite E. exact E2.
Qed.

Lemma wp_ret {A} (a : A) (Q : A -> store -> Prop) s : Q a s -> wp (ret a) Q s.
Proof. intros HQ. exists a, s. split; [reflexivity|exact HQ]. Qed.

Lemma wp_lift {A} (o : outcome A) a (Q : A -> store -> Prop) s :
  o = Ret a -> Q a s -> wp (lift o) Q s.
Proof. intros -> HQ. exists a, s. split; [reflexivity|exact HQ]. Qed.

Lemma wp_get_obj p o (Q : Tcl_Obj -> store -> Prop) s :
  objs s !! p = Some o -> Q o s -> wp (get_obj p) Q s.
Proof.
  intros E HQ. exists o, s. split; [|exact HQ]. unfold get_obj. rewrite E.
  reflexivity.
Qed.

Lemma wp_set_obj p o (Q : unit -> store -> Prop) s :
  Q tt (store_with s p o) -> wp (set_obj p o) Q s.
Proof. intros HQ. eexists _, _. split; [reflexivity|exact HQ]. Qed.

Lemma wp_alloc_obj o (Q : loc -> store -> Prop) s :
  (forall q, objs s !! q = None -> Q q (store_with s q o)) ->
  wp (alloc_obj o) Q s.
Proof.
  intros HQ. eexists _, _. split; [reflexivity|]. apply HQ, alloc_loc_fresh.
Qed.

Lemma wp_incr p o (Q : unit -> store -> Prop) s :
  objs s !! p = Some o ->
  Q tt (store_with s p {| refCount := refCount o + 1; bytes := bytes o;
                          internalRep := internalRep o |}) ->
  wp (Tcl_IncrRefCount p) Q s.
Proof.
  intros E HQ. eexists _, _. split; [|exact HQ].
  unfold Tcl_IncrRefCount, bind, get_obj. rewrite E. reflexivity.
Qed.

Lemma wp_decr p o (Q : unit -> store -> Prop) s :
  objs s !! p = Some o ->
  Q tt (match released o with
        | Some o' => store_with s p o'
        | None => {| objs := delete p (objs s); arrays := arrays s |}
        end) ->
  wp (Tcl_DecrRefCount p) Q s.
Proof.
  intros E HQ. eexists _, _. split; [|exact HQ].
  unfold Tcl_DecrRefCount, released, bind, get_obj. rewrite E.
  destruct (refCount o <=? 1); reflexivity.
Qed.

Lemma wp_decr_free p o (Q : unit -> store -> Prop) s :
  objs s !! p = Some o -> refCount o <= 1 ->
  Q tt {| objs := delete p (objs s); arrays := arrays s |} ->
  wp (Tcl_DecrRefCount p) Q s.
Proof.
  intros E Hc HQ. apply (wp_decr p o Q s E). unfold released.
  replace (refCount o <=? 1) with true by lia. exact HQ.
Qed.

Lemma wp_decr_keep p o (Q : unit -> store -> Prop) s :
  objs s !! p = Some o -> 1 < refCount o ->
  Q tt (store_with s p {| refCount := refCount o - 1; bytes := bytes o;
                          internalRep := internalRep o |}) ->
  wp (Tcl_DecrRefCount p) Q s.
Proof.
  intros E Hc HQ. apply (wp_decr p o Q s E). unfold released.
  replace (refCount o <=? 1) with false by lia. exact HQ.
Qed.

Lemma wp_get_number p o n (Q : Number -> store -> Prop) s :
  objs s !! p = Some o -> internalRep o = NumberRep n -> Q n s ->
  wp (get_number p) Q s.
Proof.
  intros E En HQ. exists n, s. split; [|exact HQ].
  unfold get_number, bind, get_obj. rewrite E, En. reflexivity.
Qed.

Lemma wp_set_number p o n (Q : unit -> store -> Prop) s :
  objs s !! p = Some o ->
  Q tt (store_with s p {| refCount := refCount o; bytes := None;
                          internalRep := NumberRep n |}) ->
  wp (set_number p n) Q s.
Proof.
  intros E HQ. eexists _, _. split; [|exact HQ].
  unfold set_number, bind, get_obj. rewrite E. reflexivity.
Qed.

Lemma wp_eval {A} (m : M A) a s' (Q : A -> store -> Prop) s :
  m s = Ret (a, s') -> Q a s' -> wp m Q s.
Proof. intros E HQ. exists a, s'. split; assumption. Qed.





(** ** Negating the step *)

Lemma neg_cases st :
  Wide.in_range st ->
  (st = Wide.MIN /\ Wide.neg st = Wide.MIN) \/
  (st <> Wide.MIN /\ Wide.neg st = - st).
Proof.
  intros Hr. destruct (Z.eq_dec st Wide.MIN) as [->|Hne].
  - left. split; reflexivity.
  - right. split; [assumption|]. unfold Wide.neg. apply wrap_in_range.
    wide_consts. lia.
Qed.

Lemma neg_neg st : Wide.in_range st -> Wide.neg (Wide.neg st) = st.
Proof.
  intros Hr. destruct (neg_cases st Hr) as [[-> E]|[Hne E]].
  - reflexivity.
  - rewrite E. unfold Wide.neg. rewrite Z.opp_involutive.
    apply wrap_in_range, Hr.
Qed.

Lemma ok_int_len_bound H a st n : ok_int H a st n -> n - 1 <= 2 ^ 54.
Proof.
  unfold ok_int, small. intros (Hn & _ & Hst & _ & Ha & Hl).
  wide_consts. change (2 ^ 54) with 18014398509481984. nia.
Qed.

Lemma ok_int_reverse H a st n :
  ok_int H a st n ->
  ok_int H (a + (n - 1) * st) (Wide.neg st) n /\
  a + (n - 1) * st + (n - 1) * Wide.neg st = a.
Proof.
  intros Hok. pose proof Hok as (Hn & Hsize & Hst & Hr & Ha & Hl).
  unfold ok_int.
  destruct (neg_cases st Hr) as [[-> E]|[Hne E]]; rewrite E.
  - assert (n = 1) by (unfold small in *; wide_consts; lia). subst n.
    replace (a + (1 - 1) * Wide.MIN) with a in * by lia.
    repeat split; try assumption; try lia; unfold small in *; wide_consts; lia.
  - replace (a + (n - 1) * st + (n - 1) * - st) with a by ring.
    repeat split; try assumption; try lia; unfold small in *; wide_consts; lia.
Qed.

(** ** The length recomputed by a slice *)

Lemma slice_len H a st n f t :
  ok_int H a st n -> 0 <= f <= t -> t < n ->
  Wide.quot (Wide.add (Wide.sub (a + t * st) (a + f * st)) st) st = t - f + 1.
Proof.
  intros Hok Hf Ht.
  destruct (ok_int_elem H a st n f Hok ltac:(lia)) as [Hsf _].
  destruct (ok_int_elem H a st n t Hok ltac:(lia)) as [Hst _].
  pose proof (ok_int_len_bound H a st n Hok) as Hb.
  destruct Hok as (Hn & _ & Hnz & Hr & _ & _).
  unfold Wide.quot, Wide.add, Wide.sub.
  replace (a + t * st - (a + f * st)) with ((t - f) * st) by ring.
  assert (Hd : - 2 ^ 54 <= (t - f) * st <= 2 ^ 54).
  { unfold small in *. change (2 ^ 54) with 18014398509481984. wide_consts. lia. }
  change (2 ^ 54) with 18014398509481984 in *.
  rewrite (wrap_in_range ((t - f) * st)) by (wide_consts; lia).
  replace ((t - f) * st + st) with ((t - f + 1) * st) by ring.
  assert (Hsum : Wide.in_range ((t - f + 1) * st)).
  { destruct (Z.eq_dec t f) as [->|Hne].
    - replace ((f - f + 1) * st) with st by ring. assumption.
    - assert (Z.abs st <= Z.abs ((t - f) * st)) by (rewrite Z.abs_mul; nia).
      replace ((t - f + 1) * st) with ((t - f) * st + st) by ring.
      wide_consts. lia. }
  rewrite (wrap_in_range _ Hsum).
  rewrite Z.quot_mul by assumption.
  apply wrap_in_range. wide_consts. lia.
Qed.

(** ** Evaluating computations *)

Lemma step_int o a e st n c :
  concrete_rep o = Some {| bounds := IntBounds a e st; len := n; elements := c |} ->
  TclArithSeriesObjStep o = Ret (NumInt st).
Proof. intros E. unfold TclArithSeriesObjStep. rewrite E. reflexivity. Qed.

Lemma shared_test o : Tcl_IsShared o || (refCount o >? 1) = (refCount o >? 1).
Proof. unfold Tcl_IsShared. apply orb_diag. Qed.

(** ** Reversing an integer series *)

Ltac neq := solve [congruence | intros ->; congruence].

Ltac lk :=
  cbn [objs arrays store_with];
  repeat first [ rewrite lookup_insert_eq
               | rewrite lookup_insert_ne by neq
               | rewrite lookup_delete_ne by neq ].

Ltac fresh_facts :=
  cbn [objs arrays store_with] in *;
  repeat match goal with
         | H : <[_ := _]> _ !! _ = None |- _ =>
             apply lookup_insert_None in H as [H ?]
         end.

Ltac wp_next := apply wp_bind; cbn [refCount bytes internalRep number_obj].

Lemma wp_new_int_with_len H interp a b st n (Q : status * option loc -> store -> Prop) s :
  st <> 0 -> 1 <= n -> (TCL_MAJOR_VERSION H < 9 -> n <= ListSizeT_MAX H) ->
  (forall q, objs s !! q = None ->
     Q (TCL_OK, Some q) (store_with s q (series_obj (IntBounds a b st) n))) ->
  wp (TclNewArithSeriesObj H interp false (Some (NumInt a)) (Some (NumInt b))
        (Some (NumInt st)) (Some (NumInt n))) Q s.
Proof.
  intros Hst Hn Hsize HQ. eapply wp_eval; [apply new_int_with_len; assumption|].
  apply HQ, alloc_loc_fresh.
Qed.

Lemma reverse_int_shared H s p o a e st n c :
  objs s !! p = Some o ->
  concrete_rep o = Some {| bounds := IntBounds a e st; len := n; elements := c |} ->
  ok_int H a st n -> refCount o > 1 ->
  exists p' q1 q2 q3 s',
    TclArithSeriesObjReverse H p s = Ret (Some p', s') /\
    NoDup [p'; q1; q2; q3] /\
    (forall x, x ∈ [p'; q1; q2; q3] -> objs s !! x = None) /\
    objs s' !! p' = Some (series_obj (IntBounds (a + (n - 1) * st) a (Wide.neg st)) n) /\
    objs s' !! q1 = Some (retained_number (NumInt (a + (n - 1) * st))) /\
    objs s' !! q2 = Some (retained_number (NumInt a)) /\
    objs s' !! q3 = Some (retained_number (NumInt (Wide.neg st))) /\
    arrays s' = arrays s /\
    forall x, x ∉ [p'; q1; q2; q3] -> objs s' !! x = objs s !! x.
Proof.
  intros Hp Hrep Hok Hsh.
  pose proof Hok as (Hn & Hsize & Hst & Hr & Ha & Hl).
  pose proof (ok_int_len_bound H a st n Hok) as Hb.
  change (2 ^ 54) with 18014398509481984 in Hb.
  assert (Hsub : Wide.sub n 1 = n - 1)
    by (unfold Wide.sub; apply wrap_in_range; wide_consts; lia).
  assert (Hneg : Wide.neg st <> 0).
  { destruct (neg_cases st Hr) as [[_ E]|[_ E]]; rewrite E; [discriminate|lia]. }
  enough (HW : wp (TclArithSeriesObjReverse H p)
                 (fun res s' => exists p' q1 q2 q3, res = Some p' /\
                    NoDup [p'; q1; q2; q3] /\
                    (forall x, x ∈ [p'; q1; q2; q3] -> objs s !! x = None) /\
                    objs s' !! p' = Some (series_obj (IntBounds (a + (n - 1) * st) a (Wide.neg st)) n) /\
                    objs s' !! q1 = Some (retained_number (NumInt (a + (n - 1) * st))) /\
                    objs s' !! q2 = Some (retained_number (NumInt a)) /\
                    objs s' !! q3 = Some (retained_number (NumInt (Wide.neg st))) /\
                    arrays s' = arrays s /\
                    forall x, x ∉ [p'; q1; q2; q3] -> objs s' !! x = objs s !! x) s).
  { destruct HW as (res & s' & E & p' & q1 & q2 & q3 & -> & HQ).
    exists p', q1, q2, q3, s'. split; assumption. }
  unfold TclArithSeriesObjReverse.
  wp_next. eapply wp_get_obj; [exact Hp|].
  wp_next. eapply wp_lift; [rewrite Hrep; reflexivity|].
  cbn [len isDouble bounds elements]. rewrite Hsub, shared_test.
  replace (refCount o >? 1) with true by lia.
  wp_next. eapply wp_lift; [apply (index_int H o a e st n c (n - 1) Hrep Hok); lia|].
  wp_next. eapply wp_lift; [reflexivity|].
  wp_next. apply wp_alloc_obj. intros q1 Hq1.
  wp_next. eapply wp_incr; [lk; reflexivity|].
  wp_next. eapply wp_lift; [apply (index_int H o a e st n c 0 Hrep Hok); lia|].
  wp_next. eapply wp_lift; [reflexivity|].
  wp_next. apply wp_alloc_obj. intros q2 Hq2. fresh_facts.
  wp_next. eapply wp_incr; [lk; reflexivity|].
  wp_next. eapply wp_lift; [apply (step_int o a e st n c Hrep)|].
  wp_next. apply wp_alloc_obj. intros q3 Hq3. fresh_facts.
  wp_next. eapply wp_incr; [lk; reflexivity|].
  wp_next. eapply wp_get_number; [lk; reflexivity|reflexivity|].
  wp_next. eapply wp_get_number; [lk; reflexivity|reflexivity|].
  wp_next. eapply wp_get_number; [lk; reflexivity|reflexivity|].
  wp_next. eapply wp_lift; [reflexivity|].
  wp_next. eapply wp_set_number; [lk; reflexivity|].
  wp_next. eapply wp_incr; [lk; reflexivity|].
  wp_next. eapply wp_incr; [lk; reflexivity|].
  wp_next. eapply wp_incr; [lk; reflexivity|].
  wp_next.
  wp_next. apply wp_alloc_obj. intros q4 Hq4. fresh_facts.
  wp_next. unfold Tcl_NewWideIntObj. replace (a + 0 * st) with a by ring.
  apply wp_new_int_with_len; try assumption. intros q5 Hq5. fresh_facts.
  wp_next. eapply wp_decr_free; [lk; reflexivity|cbn; lia|].
  apply wp_ret. cbn [fst snd].
  wp_next. eapply wp_decr_keep; [lk; reflexivity|cbn; lia|].
  wp_next. eapply wp_decr_keep; [lk; reflexivity|cbn; lia|].
  wp_next. eapply wp_decr_keep; [lk; reflexivity|cbn; lia|].
  apply wp_ret. exists q5, q1, q2, q3. split; [reflexivity|].
  split.
  { repeat (apply NoDup_cons; split;
            [rewrite ?elem_of_cons, elem_of_nil; intuition congruence|]).
    apply NoDup_nil. constructor. }
  split.
  { intros x Hx. rewrite !elem_of_cons, elem_of_nil in Hx.
    destruct Hx as [->|[->|[->|[->|[]]]]]; assumption. }
  split; [lk; reflexivity|]. split; [lk; reflexivity|].
  split; [lk; reflexivity|]. split; [lk; reflexivity|].
  split; [reflexivity|].
  intros x Hx. rewrite !elem_of_cons, elem_of_nil in Hx.
  assert (x <> q5 /\ x <> q1 /\ x <> q2 /\ x <> q3) as (? & ? & ? & ?)
    by (repeat split; intros ->; apply Hx; auto).
  lk. destruct (decide (x = q4)) as [->|Hx4].
  - rewrite lookup_delete_eq. symmetry. assumption.
  - lk. reflexivity.
Qed.

Lemma reverse_int_in_place H s p o a e st n c ps :
  objs s !! p = Some o ->
  concrete_rep o = Some {| bounds := IntBounds a e st; len := n; elements := c |} ->
  ok_int H a st n -> refCount o <= 1 ->
  match c with
  | Some arr => arrays s !! arr = Some ps /\ Z.of_nat (length ps) = n
  | None => ps = []
  end ->
  NoDup ps -> p ∉ ps -> (forall q, q ∈ ps -> is_Some (objs s !! q)) ->
  exists s',
    TclArithSeriesObjReverse H p s = Ret (Some p, s') /\
    arrays s' = match c with
                | Some arr => delete arr (arrays s)
                | None => arrays s
                end /\
    (forall q oq, q ∈ ps -> objs s !! q = Some oq -> objs s' !! q = released oq) /\
    (exists q1 q2 q3,
       NoDup [q1; q2; q3] /\
       (forall x, x ∈ [q1; q2; q3] -> objs s !! x = None) /\
       objs s' !! q1 = Some (retained_number (NumInt (a + (n - 1) * st))) /\
       objs s' !! q2 = Some (retained_number (NumInt a)) /\
       objs s' !! q3 = Some (retained_number (NumInt (Wide.neg st))) /\
       forall x, x ∉ ps -> x <> p -> x ∉ [q1; q2; q3] ->
                 objs s' !! x = objs s !! x) /\
    objs s' !! p
    = Some {| refCount := refCount o; bytes := None;
              internalRep := AbstractListRep
                {| bounds := IntBounds (a + (n - 1) * st) a (Wide.neg st);
                   len := n; elements := None |} |}.
Proof.
  intros Hp Hrep Hok Hex Hc Hnd Hpps Hlive.
  pose proof Hok as (Hn & Hsize & Hst & Hr & Ha & Hl).
  pose proof (ok_int_len_bound H a st n Hok) as Hb.
  change (2 ^ 54) with 18014398509481984 in Hb.
  assert (Hsub : Wide.sub n 1 = n - 1)
    by (unfold Wide.sub; apply wrap_in_range; wide_consts; lia).
  enough (HW : wp (TclArithSeriesObjReverse H p)
                 (fun res s' => res = Some p /\
                    arrays s' = match c with
                                | Some arr => delete arr (arrays s)
                                | None => arrays s
                                end /\
                    (forall q oq, q ∈ ps -> objs s !! q = Some oq ->
                                  objs s' !! q = released oq) /\
                    (exists q1 q2 q3,
                       NoDup [q1; q2; q3] /\
                       (forall x, x ∈ [q1; q2; q3] -> objs s !! x = None) /\
                       objs s' !! q1
                       = Some (retained_number (NumInt (a + (n - 1) * st))) /\
                       objs s' !! q2 = Some (retained_number (NumInt a)) /\
                       objs s' !! q3
                       = Some (retained_number (NumInt (Wide.neg st))) /\
                       forall x, x ∉ ps -> x <> p -> x ∉ [q1; q2; q3] ->
                                 objs s' !! x = objs s !! x) /\
                    objs s' !! p
                    = Some {| refCount := refCount o; bytes := None;
                              internalRep := AbstractListRep
                                {| bounds := IntBounds (a + (n - 1) * st) a (Wide.neg st);
                                   len := n; elements := None |} |}) s).
  { destruct HW as (res & s' & E & -> & HQ). exists s'. split; assumption. }
  unfold TclArithSeriesObjReverse.
  wp_next. eapply wp_get_obj; [exact Hp|].
  wp_next. eapply wp_lift; [rewrite Hrep; reflexivity|].
  cbn [len isDouble bounds elements]. rewrite Hsub, shared_test.
  replace (refCount o >? 1) with false by lia.
  wp_next. eapply wp_lift; [apply (index_int H o a e st n c (n - 1) Hrep Hok); lia|].
  wp_next. eapply wp_lift; [reflexivity|].
  wp_next. apply wp_alloc_obj. intros q1 Hq1.
  wp_next. eapply wp_incr; [lk; reflexivity|].
  wp_next. eapply wp_lift; [apply (index_int H o a e st n c 0 Hrep Hok); lia|].
  wp_next. eapply wp_lift; [reflexivity|].
  wp_next. apply wp_alloc_obj. intros q2 Hq2. fresh_facts.
  wp_next. eapply wp_incr; [lk; reflexivity|].
  wp_next. eapply wp_lift; [apply (step_int o a e st n c Hrep)|].
  wp_next. apply wp_alloc_obj. intros q3 Hq3. fresh_facts.
  wp_next. eapply wp_incr; [lk; reflexivity|].
  wp_next. eapply wp_get_number; [lk; reflexivity|reflexivity|].
  wp_next. eapply wp_get_number; [lk; reflexivity|reflexivity|].
  wp_next. eapply wp_get_number; [lk; reflexivity|reflexivity|].
  wp_next. eapply wp_lift; [reflexivity|].
  wp_next. eapply wp_set_number; [lk; reflexivity|].
  wp_next. eapply wp_incr; [lk; reflexivity|].
  wp_next. eapply wp_incr; [lk; reflexivity|].
  wp_next. eapply wp_incr; [lk; reflexivity|].
  assert (Hp1 : q1 <> p) by neq. assert (Hp2 : q2 <> p) by neq.
  assert (Hp3 : q3 <> p) by neq.
  wp_next. wp_next. unfold TclInvalidateStringRep.
  wp_next. eapply wp_get_obj; [lk; exact Hp|]. apply wp_set_obj.
  wp_next. eapply wp_lift; [reflexivity|].
  replace (a + 0 * st) with a by ring.
  match goal with |- wp _ _ ?S => set (s1 := S) end.
  assert (Hold : forall x, x <> p -> x <> q1 -> x <> q2 -> x <> q3 ->
                           objs s1 !! x = objs s !! x).
  { intros x ? ? ? ?. unfold s1. lk. reflexivity. }
  assert (Hnew : forall q, objs s !! q = None -> q ∉ ps).
  { intros q Hq Hin. destruct (Hlive q Hin) as [? ?]. congruence. }
  assert (Hps : forall q, q ∈ ps ->
                          q <> p /\ q <> q1 /\ q <> q2 /\ q <> q3).
  { intros q Hq. repeat split; intros ->;
      first [ contradiction | exact (Hnew _ Hq1 Hq) | exact (Hnew _ Hq2 Hq)
            | exact (Hnew _ Hq3 Hq) ]. }
  assert (Hrel : exists s2,
             (match c with
              | Some a0 => release_elements a0 n
              | None => ret tt
              end) s1 = Ret (tt, s2) /\
             arrays s2 = match c with
                         | Some arr => delete arr (arrays s)
                         | None => arrays s
                         end /\
             (forall x, x ∉ ps -> objs s2 !! x = objs s1 !! x) /\
             (forall q oq, q ∈ ps -> objs s1 !! q = Some oq ->
                           objs s2 !! q = released oq)).
  { destruct c as [arr|].
    - destruct Hc as [Harr Hlen].
      destruct (release_elements_effect s1 arr ps n) as (s2 & E2 & Ha2 & Hf2 & He2);
        try assumption.
      + intros q Hq. destruct (Hps q Hq) as (? & ? & ? & ?).
        rewrite Hold by assumption. apply Hlive, Hq.
      + exists s2. repeat split; assumption.
    - subst ps. exists s1. repeat split.
      intros q oq Hq. inversion Hq. }
  destruct Hrel as (s2 & E2 & Ha2 & Hf2 & He2).
  wp_next. eapply wp_eval; [exact E2|].
  wp_next. unfold set_rep. wp_next.
  eapply wp_get_obj; [rewrite (Hf2 p Hpps); unfold s1; lk; reflexivity|].
  apply wp_set_obj. apply wp_ret.
  assert (L1 : objs s2 !! q1 = objs s1 !! q1) by (apply Hf2, Hnew, Hq1).
  assert (L2 : objs s2 !! q2 = objs s1 !! q2) by (apply Hf2, Hnew, Hq2).
  assert (L3 : objs s2 !! q3 = objs s1 !! q3) by (apply Hf2, Hnew, Hq3).
  unfold s1 in L1, L2, L3. revert L1 L2 L3. lk. intros L1 L2 L3.
  wp_next. eapply wp_decr_keep; [lk; exact L1|cbn; lia|].
  wp_next. eapply wp_decr_keep; [lk; exact L2|cbn; lia|].
  wp_next. eapply wp_decr_keep; [lk; exact L3|cbn; lia|].
  apply wp_ret. split; [reflexivity|]. split; [exact Ha2|].
  split; [|split].
  - intros q oq Hq Hoq. destruct (Hps q Hq) as (? & ? & ? & ?).
    lk. apply He2; [assumption|]. rewrite Hold by assumption. exact Hoq.
  - exists q1, q2, q3. split.
    { repeat (apply NoDup_cons; split;
              [rewrite ?elem_of_cons, elem_of_nil; intuition congruence|]).
      apply NoDup_nil. constructor. }
    split.
    { intros x Hx. rewrite !elem_of_cons, elem_of_nil in Hx.
      destruct Hx as [->|[->|[->|[]]]]; assumption. }
    split; [lk; reflexivity|]. split; [lk; reflexivity|].
    split; [lk; reflexivity|].
    intros x Hxps Hxp Hx. rewrite !elem_of_cons, elem_of_nil in Hx.
    assert (x <> q1 /\ x <> q2 /\ x <> q3) as (? & ? & ?)
      by (repeat split; intros ->; apply Hx; auto).
    lk. rewrite Hf2 by assumption. apply Hold; assumption.
  - lk. reflexivity.
Qed.

Lemma reverse_int H s p o a e st n c :
  objs s !! p = Some o ->
  concrete_rep o = Some {| bounds := IntBounds a e st; len := n; elements := c |} ->
  ok_int H a st n ->
  cache_ok s p {| bounds := IntBounds a e st; len := n; elements := c |} ->
  exists p' s' o',
    TclArithSeriesObjReverse H p s = Ret (Some p', s') /\
    objs s' !! p' = Some o' /\
    concrete_rep o' = Some {| bounds := IntBounds (a + (n - 1) * st) a (Wide.neg st);
                              len := n; elements := None |} /\
    (refCount o > 1 -> objs s !! p' = None /\ objs s' !! p = Some o) /\
    (refCount o <= 1 -> p' = p).
Proof.
  intros Hp Hrep Hok Hcache.
  destruct (Z.le_gt_cases (refCount o) 1) as [Hex|Hsh].
  - assert (Hps : exists ps,
              match c with
              | Some arr => arrays s !! arr = Some ps /\ Z.of_nat (length ps) = n
              | None => ps = []
              end /\ NoDup ps /\ (p ∉ ps) /\
              forall q, q ∈ ps -> is_Some (objs s !! q)).
    { unfold cache_ok in Hcache. cbn [elements len] in Hcache.
      destruct c as [arr|].
      - destruct Hcache as (ps & Ea & Hlen & Hnd & Hpps & Hall).
        exists ps. repeat split; assumption.
      - exists []. repeat split; [constructor | apply not_elem_of_nil |].
        intros q Hq. inversion Hq. }
    destruct Hps as (ps & Hc & Hnd & Hpps & Hall).
    destruct (reverse_int_in_place H s p o a e st n c ps Hp Hrep Hok Hex Hc Hnd
                Hpps Hall) as (s' & E & _ & _ & _ & Hp').
    exists p, s'. eexists. split; [exact E|]. split; [exact Hp'|].
    split; [reflexivity|]. split; [lia|reflexivity].
  - destruct (reverse_int_shared H s p o a e st n c Hp Hrep Hok ltac:(lia))
      as (p' & q1 & q2 & q3 & s' & E & _ & Hfresh & Hp' & _ & _ & _ & _ & Hold).
    exists p', s'. eexists. split; [exact E|]. split; [exact Hp'|].
    split; [reflexivity|]. split; [|lia].
    intros _. split; [apply Hfresh; left|].
    rewrite Hold; [exact Hp|].
    intros Hin. apply Hfresh in Hin. congruence.
Qed.

(** ** Slicing an integer series *)

Lemma clamp_max from : (if from <? 0 then 0 else from) = Z.max 0 from.
Proof. destruct (Z.ltb_spec from 0); lia. Qed.

Lemma range_int H s p o a e st n c from to :
  objs s !! p = Some o ->
  concrete_rep o = Some {| bounds := IntBounds a e st; len := n; elements := c |} ->
  ok_int H a st n ->
  Z.max 0 from <= to -> to < n ->
  exists p' s' o',
    TclArithSeriesObjRange H p from to s = Ret (Some p', s') /\
    objs s' !! p' = Some o' /\
    concrete_rep o' = Some {| bounds := IntBounds (a + Z.max 0 from * st) (a + to * st) st;
                              len := to - Z.max 0 from + 1; elements := None |} /\
    (refCount o > 1 -> p' = alloc_loc s /\ objs s' !! p = Some o) /\
    (refCount o <= 1 -> p' = p).
Proof.
  intros Hp Hrep Hok Hft Htn.
  pose proof Hok as (Hn & Hsize & Hst & Hr & Ha & Hl).
  pose proof (slice_len H a st n (Z.max 0 from) to Hok ltac:(lia) Htn) as Hlen.
  unfold TclArithSeriesObjRange, bind, lift, get_obj.
  rewrite Hp, Hrep. cbn [rd len isDouble bounds elements].
  rewrite clamp_max.
  replace (Z.max 0 from >? to) with false by lia.
  rewrite (index_int H o a e st n c (Z.max 0 from) Hrep Hok) by lia.
  rewrite (index_int H o a e st n c to Hrep Hok) by lia.
  rewrite (step_int o a e st n c Hrep).
  cbn [snd rd Tcl_GetWideIntFromObj obind].
  rewrite shared_test.
  destruct (refCount o >? 1) eqn:Esh.
  - pose proof (new_int_without_len H NULL (a + Z.max 0 from * st) (a + to * st) st s) as Hnew.
    cbv zeta in Hnew. rewrite Hlen in Hnew.
    rewrite Hnew by (try assumption; lia).
    cbn. do 3 eexists. split; [reflexivity|].
    split; [apply lookup_store_with_eq|]. split; [reflexivity|].
    split; [intros _; split; [reflexivity|apply lookup_alloc, Hp] | lia].
  - unfold TclInvalidateStringRep, set_rep, bind, get_obj, set_obj.
    rewrite Hp.
    rewrite div_traps_false by (rewrite ?Hlen; lia).
    rewrite lookup_store_with_eq. rewrite Hlen.
    cbn. do 3 eexists. split; [reflexivity|].
    split; [apply lookup_store_with_eq|]. split; [reflexivity|].
    split; [lia | reflexivity].
Qed.

(** ** Reversal *)

Lemma same_elements_int H o1 o2 a e1 e2 st n c1 c2 :
  concrete_rep o1 = Some {| bounds := IntBounds a e1 st; len := n; elements := c1 |} ->
  concrete_rep o2 = Some {| bounds := IntBounds a e2 st; len := n; elements := c2 |} ->
  ok_int H a st n ->
  same_elements o1 o2 /\
  TclArithSeriesObjLength o1 = Ret n /\
  forall i, 0 <= i < n ->
    TclArithSeriesObjIndex o1 i = Ret (TCL_OK, Some (NumInt (a + i * st))).
Proof.
  intros H1 H2 Hok. split; [split|split].
  - unfold TclArithSeriesObjLength. rewrite H1, H2. reflexivity.
  - intros i. destruct (Z.lt_ge_cases i 0) as [Hlt|Hge].
    + rewrite (index_out_of_range o1 _ i H1), (index_out_of_range o2 _ i H2)
        by (cbn; lia). reflexivity.
    + destruct (Z.lt_ge_cases i n) as [Hin|Hout].
      * rewrite (index_int H o1 _ _ _ _ _ i H1 Hok), (index_int H o2 _ _ _ _ _ i H2 Hok)
          by lia. reflexivity.
      * rewrite (index_out_of_range o1 _ i H1), (index_out_of_range o2 _ i H2)
          by (cbn; lia). reflexivity.
  - unfold TclArithSeriesObjLength. rewrite H1. reflexivity.
  - intros i Hi. apply (index_int H o1 _ _ _ _ _ i H1 Hok Hi).
Qed.

(** C6, as stated, fails on a float series: reversing 0.1, 0.1 + 0.2 twice
    gives a series whose first element is 0.1 + 0.2 - 0.2 as rounded, which
    is not 0.1. *)
Lemma C6_float_reverse_twice_counterexample :
  run (p <- float_pair ;; observe p)
  = Ret (2, [Ret (TCL_OK, Some (NumDbl (S754_finite false 7205759403792794 (-56))));
             Ret (TCL_OK, Some (NumDbl (S754_finite false 5404319552844596 (-54))))]) /\
  run (p <- float_pair_reversed_twice ;; observe p)
  = Ret (2, [Ret (TCL_OK, Some (NumDbl (S754_finite false 7205759403792796 (-56))));
             Ret (TCL_OK, Some (NumDbl (S754_finite false 5404319552844596 (-54))))]) /\
  run (p <- float_pair ;; observe p)
  <> run (p <- float_pair_reversed_twice ;; observe p).
Proof.
  assert (E1 : run (p <- float_pair ;; observe p)
    = Ret (2, [Ret (TCL_OK, Some (NumDbl (S754_finite false 7205759403792794 (-56))));
               Ret (TCL_OK, Some (NumDbl (S754_finite false 5404319552844596 (-54))))]))
    by (vm_compute; reflexivity).
  assert (E2 : run (p <- float_pair_reversed_twice ;; observe p)
    = Ret (2, [Ret (TCL_OK, Some (NumDbl (S754_finite false 7205759403792796 (-56))));
               Ret (TCL_OK, Some (NumDbl (S754_finite false 5404319552844596 (-54))))]))
    by (vm_compute; reflexivity).
  split; [exact E1|]. split; [exact E2|].
  rewrite E1, E2. discriminate.
Qed.

(** C6 (amended): for every integer series whose elements all have
    magnitude at most 2^53, reversing twice returns a series with the same
    length and the same element at every index. *)
Theorem C6_reverse_twice_int (H : Host) (s : store) (p : loc) (o : Tcl_Obj)
    (a e st n : Z) (c : option loc) :
  objs s !! p = Some o ->
  concrete_rep o = Some {| bounds := IntBounds a e st; len := n; elements := c |} ->
  ok_int H a st n ->
  cache_ok s p {| bounds := IntBounds a e st; len := n; elements := c |} ->
  exists p1 s1 p2 s2 o2,
    TclArithSeriesObjReverse H p s = Ret (Some p1, s1) /\
    TclArithSeriesObjReverse H p1 s1 = Ret (Some p2, s2) /\
    objs s2 !! p2 = Some o2 /\
    same_elements o2 o /\
    TclArithSeriesObjLength o2 = Ret n /\
    forall i, 0 <= i < n ->
      TclArithSeriesObjIndex o2 i = Ret (TCL_OK, Some (NumInt (a + i * st))).
Proof.
  intros Hp Hrep Hok Hcache.
  destruct (reverse_int H s p o a e st n c Hp Hrep Hok Hcache)
    as (p1 & s1 & o1 & E1 & Hp1 & Hrep1 & _).
  destruct (ok_int_reverse H a st n Hok) as [Hok1 Hback].
  destruct (reverse_int H s1 p1 o1 _ _ _ n None Hp1 Hrep1 Hok1 I)
    as (p2 & s2 & o2 & E2 & Hp2 & Hrep2 & _).
  rewrite Hback, neg_neg in Hrep2 by apply Hok.
  exists p1, s1, p2, s2, o2.
  split; [exact E1|]. split; [exact E2|]. split; [exact Hp2|].
  apply (same_elements_int H o2 o a _ e st n None c Hrep2 Hrep Hok).
Qed.

Lemma C6_reverse_twice_int_witness :
  objs odd_store !! 1%positive = Some odd_series /\
  concrete_rep odd_series
    = Some {| bounds := IntBounds 1 10 2; len := 5; elements := None |} /\
  ok_int tcl8 1 2 5 /\
  cache_ok odd_store 1%positive
    {| bounds := IntBounds 1 10 2; len := 5; elements := None |} /\
  exists p1 s1 p2 s2 o2,
    TclArithSeriesObjReverse tcl8 1%positive odd_store = Ret (Some p1, s1) /\
    TclArithSeriesObjReverse tcl8 p1 s1 = Ret (Some p2, s2) /\
    objs s2 !! p2 = Some o2 /\
    same_elements o2 odd_series /\
    TclArithSeriesObjLength o2 = Ret 5 /\
    forall i, 0 <= i < 5 ->
      TclArithSeriesObjIndex o2 i = Ret (TCL_OK, Some (NumInt (1 + i * 2))).
Proof.
  assert (Hok : ok_int tcl8 1 2 5).
  { unfold ok_int, small, tcl8; cbn [TCL_MAJOR_VERSION ListSizeT_MAX].
    wide_consts. lia. }
  split; [reflexivity|]. split; [reflexivity|]. split; [exact Hok|].
  split; [exact I|].
  apply (C6_reverse_twice_int tcl8 odd_store 1%positive odd_series 1 10 2 5 None);
    [reflexivity | reflexivity | exact Hok | exact I].
Defined.

(** ** Slicing the whole series *)

Lemma run_bind_map {A B C} (m : M A) (k : A -> M B) (f : B -> C) :
  run (x <- m ;; y <- k x ;; ret (f y))
  = match run (x <- m ;; k x) with
    | Ret y => Ret (f y)
    | Stuck => Stuck
    end.
Proof.
  unfold run, bind, ret. destruct (m empty_store) as [[a s]|]; [|reflexivity].
  destruct (k a s) as [[b s']|]; reflexivity.
Qed.

(** C7, as stated, fails on a float series: the full range of the shared
    series 0.0, 0.1, ..., 0.5 has five elements, because the recomputed
    length (0.5 - 0.0 + 0.1) / 0.1 is just below 6. *)
Lemma C7_float_full_range_counterexample :
  run (p <- float_six_shared ;; n <- observe p ;; ret (fst n)) = Ret 6 /\
  run (p <- float_six_full_range ;; n <- observe p ;; ret (fst n)) = Ret 5 /\
  run (p <- float_six_shared ;; observe p)
  <> run (p <- float_six_full_range ;; observe p).
Proof.
  assert (E1 : run (p <- float_six_shared ;; n <- observe p ;; ret (fst n)) = Ret 6)
    by (vm_compute; reflexivity).
  assert (E2 : run (p <- float_six_full_range ;; n <- observe p ;; ret (fst n)) = Ret 5)
    by (vm_compute; reflexivity).
  split; [exact E1|]. split; [exact E2|].
  intros E.
  apply (f_equal (fun x => match x with
                           | Ret y => Ret (fst y)
                           | Stuck => Stuck
                           end)) in E.
  rewrite <- !run_bind_map in E. rewrite E1, E2 in E. discriminate.
Qed.

(** The in-place branch of the slice on a float series. *)
Lemma range_float_in_place_stuck :
  float_six_owned_full_range empty_store = Stuck.
Proof. vm_compute. reflexivity. Qed.

(** C7 (amended): for every integer series whose elements all have
    magnitude at most 2^53, the range from 0 to length - 1 is a series with
    the same length and the same element at every index. *)
Theorem C7_full_range_int (H : Host) (s : store) (p : loc) (o : Tcl_Obj)
    (a e st n : Z) (c : option loc) :
  objs s !! p = Some o ->
  concrete_rep o = Some {| bounds := IntBounds a e st; len := n; elements := c |} ->
  ok_int H a st n ->
  exists p' s' o',
    TclArithSeriesObjRange H p 0 (n - 1) s = Ret (Some p', s') /\
    objs s' !! p' = Some o' /\
    same_elements o' o /\
    TclArithSeriesObjLength o' = Ret n /\
    forall i, 0 <= i < n ->
      TclArithSeriesObjIndex o' i = Ret (TCL_OK, Some (NumInt (a + i * st))).
Proof.
  intros Hp Hrep Hok. pose proof Hok as (Hn & _).
  destruct (range_int H s p o a e st n c 0 (n - 1) Hp Hrep Hok ltac:(lia) ltac:(lia))
    as (p' & s' & o' & E & Hp' & Hrep' & _).
  replace (Z.max 0 0) with 0 in Hrep' by reflexivity.
  replace (a + 0 * st) with a in Hrep' by ring.
  replace (n - 1 - 0 + 1) with n in Hrep' by ring.
  exists p', s', o'. split; [exact E|]. split; [exact Hp'|].
  apply (same_elements_int H o' o a _ e st n None c Hrep' Hrep Hok).
Qed.

Lemma C7_full_range_int_witness :
  objs odd_store !! 1%positive = Some odd_series /\
  concrete_rep odd_series
    = Some {| bounds := IntBounds 1 10 2; len := 5; elements := None |} /\
  ok_int tcl8 1 2 5 /\
  exists p' s' o',
    TclArithSeriesObjRange tcl8 1%positive 0 (5 - 1) odd_store = Ret (Some p', s') /\
    objs s' !! p' = Some o' /\
    same_elements o' odd_series /\
    TclArithSeriesObjLength o' = Ret 5 /\
    forall i, 0 <= i < 5 ->
      TclArithSeriesObjIndex o' i = Ret (TCL_OK, Some (NumInt (1 + i * 2))).
Proof.
  assert (Hok : ok_int tcl8 1 2 5).
  { unfold ok_int, small, tcl8; cbn [TCL_MAJOR_VERSION ListSizeT_MAX].
    wide_consts. lia. }
  split; [reflexivity|]. split; [reflexivity|]. split; [exact Hok|].
  apply (C7_full_range_int tcl8 odd_store 1%positive odd_series 1 10 2 5 None);
    [reflexivity | reflexivity | exact Hok].
Defined.

(** ** Sharing *)








(** ** The empty slice *)

(** C8: the slice clamps [fromIdx] to 0 before anything else, and when the
    clamped [fromIdx] exceeds [toIdx] it returns a new empty value (no
    type, empty string, list length 0) and leaves the source as it was. *)
Theorem C8_range_clamps_then_empty (H : Host) (s : store) (p : loc)
    (o : Tcl_Obj) (r : ArithSeries) (from to : Z) :
  objs s !! p = Some o -> concrete_rep o = Some r ->
  TclArithSeriesObjRange H p from to s
  = TclArithSeriesObjRange H p (Z.max 0 from) to s /\
  (Z.max 0 from > to ->
   TclArithSeriesObjRange H p from to s
   = Ret (Some (alloc_loc s), store_with s (alloc_loc s) empty_obj) /\
   alloc_loc s <> p /\
   objs (store_with s (alloc_loc s) empty_obj) !! p = Some o /\
   arrays (store_with s (alloc_loc s) empty_obj) = arrays s /\
   host_list_length empty_obj = Some 0).
Proof.
  intros Hp Hrep. split.
  - unfold TclArithSeriesObjRange. rewrite !clamp_max.
    replace (Z.max 0 (Z.max 0 from)) with (Z.max 0 from) by lia. reflexivity.
  - intros Hgt. split; [|split; [|split; [|split]]].
    + unfold TclArithSeriesObjRange, bind, lift, get_obj.
      rewrite Hp, Hrep. cbn [rd]. rewrite clamp_max.
      replace (Z.max 0 from >? to) with true by lia. reflexivity.
    + eapply alloc_loc_ne, Hp.
    + apply lookup_alloc, Hp.
    + reflexivity.
    + reflexivity.
Qed.

Lemma C8_range_clamps_then_empty_witness :
  objs odd_store !! 1%positive = Some odd_series /\
  concrete_rep odd_series
    = Some {| bounds := IntBounds 1 10 2; len := 5; elements := None |} /\
  Z.max 0 (-3) > -1 /\
  TclArithSeriesObjRange tcl8 1%positive (-3) (-1) odd_store
  = Ret (Some 2%positive, store_with odd_store 2%positive empty_obj).
Proof.
  split; [reflexivity|]. split; [reflexivity|]. split; [reflexivity|].
  destruct (C8_range_clamps_then_empty tcl8 odd_store 1%positive odd_series _
              (-3) (-1) eq_refl eq_refl) as [_ Hempty].
  destruct (Hempty eq_refl) as [E _]. exact E.
Defined.

(** ** Indexing *)

(** C5 at the failing input: the only element of [lseq 2^53+1 2^53+1] reads
    back as 2^53, because the value of the index macro is a [double]. *)
Theorem C5_index_rounds_through_double :
  run (p <- construct tcl8 false (Some (NumInt big_odd)) (Some (NumInt big_odd))
              None None ;;
       o <- get_obj p ;;
       ret (concrete_rep o, TclArithSeriesObjIndex o 0))
  = Ret (Some {| bounds := IntBounds big_odd big_odd (-1); len := 1;
                 elements := None |},
         Ret (TCL_OK, Some (NumInt (big_odd - 1)))).
Proof. vm_compute. reflexivity. Qed.

(** What does hold of the index: it fails exactly outside [0, len), leaves
    the object alone (it is a function of the object), computes in floating
    arithmetic on a float series, and gives [start + i * step] on an integer
    series whose elements have magnitude at most 2^53. *)
Lemma index_summary H o r i :
  concrete_rep o = Some r ->
  (i < 0 \/ len r <= i -> TclArithSeriesObjIndex o i = Ret (TCL_ERROR, None)) /\
  (0 <= i < len r ->
   match bounds r with
   | DblBounds a _ st =>
       TclArithSeriesObjIndex o i
       = Ret (TCL_OK, Some (NumDbl (Dbl.add a (Dbl.mul (Dbl.of_wide i) st))))
   | IntBounds a _ st =>
       ok_int H a st (len r) ->
       TclArithSeriesObjIndex o i = Ret (TCL_OK, Some (NumInt (a + i * st)))
   end).
Proof.
  intros Hrep. split; [apply index_out_of_range, Hrep|].
  intros Hi. destruct r as [[a e st|a e st] n c]; cbn in *.
  - intros Hok. eapply index_int; eassumption.
  - unfold TclArithSeriesObjIndex. rewrite Hrep. cbn.
    replace ((i <? 0) || (i >=? n)) with false by lia. reflexivity.
Qed.

(** ** Duplication *)

Lemma dup_copies_every_field s src copy o oc r :
  objs s !! src = Some o -> concrete_rep o = Some r ->
  objs s !! copy = Some oc ->
  DupArithSeriesRep src copy s
  = Ret (tt, store_with s copy
               {| refCount := refCount oc; bytes := bytes oc;
                  internalRep := AbstractListRep r |}).
Proof.
  intros Hs Hr Hc.
  unfold DupArithSeriesRep, get_rep, set_rep, bind, lift, get_obj, set_obj.
  rewrite Hs, Hr. cbn. rewrite Hc. reflexivity.
Qed.

(** C2 at the failing input: after the elements of [lseq 1 10 2] have been
    materialised, the duplicate's [elements] is the source's array, not
    NULL; releasing both values then releases that array twice. *)
Theorem C2_duplicate_shares_cache :
  run (pc <- duplicated ;;
       src <- get_rep (fst pc) ;;
       copy <- get_rep (snd pc) ;;
       ret (src, copy))
  = Ret ({| bounds := IntBounds 1 10 2; len := 5; elements := Some 1%positive |},
         {| bounds := IntBounds 1 10 2; len := 5; elements := Some 1%positive |}) /\
  run (pc <- duplicated ;;
       FreeArithSeriesRep (fst pc) ;;;
       FreeArithSeriesRep (snd pc)) = Stuck.
Proof. split; vm_compute; reflexivity. Qed.

(** ** A zero step *)

(** C3, as stated, fails: with a zero step the construction reports
    [TCL_OK], not an error, and stores a new empty value. *)
Lemma C3_zero_step_counterexample :
  TclNewArithSeriesObj tcl8 Interp false (Some (NumInt 1)) (Some (NumInt 10))
    (Some (NumInt 0)) None empty_store
  = Ret ((TCL_OK, Some 1%positive), store_with empty_store 1%positive empty_obj) /\
  forall r s', TclNewArithSeriesObj tcl8 Interp false (Some (NumInt 1)) (Some (NumInt 10))
                 (Some (NumInt 0)) None empty_store = Ret (r, s') ->
               fst r <> TCL_ERROR.
Proof.
  assert (E : TclNewArithSeriesObj tcl8 Interp false (Some (NumInt 1)) (Some (NumInt 10))
                (Some (NumInt 0)) None empty_store
              = Ret ((TCL_OK, Some 1%positive),
                     store_with empty_store 1%positive empty_obj))
    by (vm_compute; reflexivity).
  split; [exact E|]. intros r s'. rewrite E. intros [= <- _]. discriminate.
Qed.

(** C3 (amended): whenever a step is supplied and resolves to zero, the
    construction returns [TCL_OK] and stores a new empty value (no series is
    produced, and no error is raised), whatever the other arguments are. *)
Theorem C3_zero_step_gives_empty_value (H : Host) (interp : InterpPtr)
    (useDoubles : bool) (startObj endObj lenObj : option Number)
    (stepObj : Number) (s : store) :
  zero_step useDoubles stepObj = true ->
  TclNewArithSeriesObj H interp useDoubles startObj endObj (Some stepObj) lenObj s
  = Ret ((TCL_OK, Some (alloc_loc s)), store_with s (alloc_loc s) empty_obj) /\
  concrete_rep empty_obj = None /\ host_list_length empty_obj = Some 0.
Proof.
  intros Hz. split; [|split; reflexivity].
  assert (Hinf : infer useDoubles startObj endObj (Some stepObj) lenObj = Ret ZeroStep).
  { unfold infer.
    destruct (match startObj with
              | Some o => assignNumber useDoubles (None, None) o
              | None => (Some 0, Some (Dbl.of_wide 0))
              end) as [start dstart].
    destruct stepObj as [i|d]; destruct useDoubles; cbn in Hz |- *.
    - rewrite of_wide_eqb_zero, Hz. reflexivity.
    - rewrite of_wide_eqb_zero, Hz. reflexivity.
    - destruct d as [sg|sg| |sg m ex]; try destruct sg;
        try (vm_compute in Hz; discriminate Hz); cbn; rewrite Hz; reflexivity.
    - destruct (Dbl.to_wide d) as [[| |]|]; try discriminate. cbn.
      reflexivity. }
  unfold TclNewArithSeriesObj, bind, lift. rewrite Hinf. reflexivity.
Qed.

Lemma C3_zero_step_gives_empty_value_witness :
  zero_step false (NumInt 0) = true /\
  TclNewArithSeriesObj tcl8 Interp false (Some (NumInt 1)) (Some (NumInt 10))
    (Some (NumInt 0)) None empty_store
  = Ret ((TCL_OK, Some (alloc_loc empty_store)),
         store_with empty_store (alloc_loc empty_store) empty_obj).
Proof.
  split; [reflexivity|].
  apply (C3_zero_step_gives_empty_value tcl8 Interp false (Some (NumInt 1))
           (Some (NumInt 10)) None (NumInt 0) empty_store eq_refl).
Defined.

(** ** Inference of the missing arguments *)

Lemma modest_wrap z : - 2 ^ 63 <= z < 2 ^ 63 -> Wide.wrap z = z.
Proof. intros. apply wrap_in_range. wide_consts. lia. Qed.

Lemma quot_bound x s : s <> 0 -> Z.abs (x ÷ s) <= Z.abs x.
Proof.
  intros Hs. rewrite <- Z.quot_abs by assumption.
  apply Z.quot_le_upper_bound; [lia|].
  assert (1 <= Z.abs s) by lia. nia.
Qed.






(** ** The string representation *)

Lemma append_cons x (a b : string) :
  (String x a ++ b)%string = String x (a ++ b).
Proof. reflexivity. Qed.

Lemma string_length_app (a b : string) :
  String.length (a ++ b) = (String.length a + String.length b)%nat.
Proof.
  induction a as [|x a IH]; [reflexivity|].
  rewrite append_cons. change (S (String.length (a ++ b)) = S (String.length a + String.length b)).
  f_equal. exact IH.
Qed.

Lemma string_app_assoc (a b c : string) : ((a ++ b) ++ c = a ++ (b ++ c))%string.
Proof.
  induction a as [|x a IH]; [reflexivity|].
  rewrite !append_cons. f_equal. exact IH.
Qed.

Lemma string_app_nil_r (a : string) : (a ++ "" = a)%string.
Proof.
  induction a as [|x a IH]; [reflexivity|].
  rewrite append_cons. f_equal. exact IH.
Qed.

Lemma substring_prefix (a b : string) :
  substring 0 (String.length a) (a ++ b) = a.
Proof.
  induction a as [|x a IH].
  - destruct b; reflexivity.
  - rewrite append_cons.
    change (String x (substring 0 (String.length a) (a ++ b)) = String x a).
    f_equal. exact IH.
Qed.

Lemma written_for_text H es :
  es <> nil -> written_for H es = (text_form_spec H es ++ " ")%string.
Proof.
  unfold text_form_spec. induction es as [|e es IH]; [congruence|]. intros _.
  destruct es as [|e' es].
  - cbn. rewrite string_app_nil_r. reflexivity.
  - cbn [written_for map String.concat] in *. rewrite IH by discriminate.
    rewrite !string_app_assoc. reflexivity.
Qed.

Lemma pass1_total H o idx es : forall acc,
  Forall2 (fun i e => TclArithSeriesObjIndex o i = Ret (TCL_OK, Some e)) idx es ->
  pass1 H o idx acc = Ret (acc + slen (written_for H es)).
Proof.
  intros acc Hall. revert acc.
  induction Hall as [|i e idx es Hi _ IH]; intros acc; cbn [pass1 written_for].
  - unfold slen. cbn. f_equal. lia.
  - rewrite Hi. cbn [obind]. rewrite IH. f_equal.
    unfold slen. rewrite !string_length_app. cbn. lia.
Qed.

Lemma pass2_written H o idx es : forall w,
  Forall2 (fun i e => TclArithSeriesObjIndex o i = Ret (TCL_OK, Some e)) idx es ->
  pass2 H o idx w = Ret (w ++ written_for H es)%string.
Proof.
  intros w Hall. revert w.
  induction Hall as [|i e idx es Hi _ IH]; intros w; cbn [pass2 written_for].
  - rewrite string_app_nil_r. reflexivity.
  - rewrite Hi. cbn [obind]. rewrite IH. rewrite !string_app_assoc. reflexivity.
Qed.

Lemma indexed_elements o (es : list Number) : forall k,
  (forall i e, es !! i = Some e ->
     TclArithSeriesObjIndex o (k + Z.of_nat i) = Ret (TCL_OK, Some e)) ->
  Forall2 (fun i e => TclArithSeriesObjIndex o i = Ret (TCL_OK, Some e))
    (seqZ k (Z.of_nat (length es))) es.
Proof.
  induction es as [|e es IH]; intros k Hall.
  - constructor.
  - rewrite seqZ_cons by (cbn; lia).
    replace (Z.pred (Z.of_nat (length (e :: es)))) with (Z.of_nat (length es))
      by (cbn [length]; lia).
    constructor.
    + specialize (Hall 0%nat e eq_refl). rewrite Z.add_0_r in Hall. exact Hall.
    + apply IH. intros i e' Hi. specialize (Hall (S i) e' Hi).
      replace (Z.succ k + Z.of_nat i) with (k + Z.of_nat (S i)) by lia.
      exact Hall.
Qed.

(** The string representation of a series whose count fits C's [int] is
    the string forms of its elements, in order, separated by single
    spaces, with no trailing space; it is the empty string when the count
    is 0. *)
Theorem string_joins_the_elements (H : Host) (s : store) (p : loc)
    (o : Tcl_Obj) (r : ArithSeries) (es : list Number) :
  objs s !! p = Some o -> concrete_rep o = Some r ->
  0 <= len r <= Wide.INT_MAX ->
  Z.of_nat (length es) = len r ->
  (forall i e, es !! i = Some e ->
     TclArithSeriesObjIndex o (Z.of_nat i) = Ret (TCL_OK, Some e)) ->
  UpdateStringOfArithSeries H p s
  = Ret (tt, store_with s p {| refCount := refCount o;
                               bytes := Some (text_form_spec H es);
                               internalRep := internalRep o |}) /\
  (len r = 0 -> text_form_spec H es = EmptyString).
Proof.
  intros Hp Hrep Hlen Hes Hidx. split.
  - unfold UpdateStringOfArithSeries, set_bytes, bind, lift, get_obj, set_obj.
    rewrite Hp. unfold TclArithSeriesObjLength. rewrite Hrep. cbn [rd obind].
    rewrite to_int_small by (wide_consts; lia).
    destruct (Z.leb_spec (len r) 0) as [Hz|Hpos].
    + rewrite Hp. destruct es; [reflexivity|cbn in Hes; lia].
    + pose proof (indexed_elements o es 0 Hidx) as Hall. rewrite Hes in Hall.
      rewrite (pass1_total H o _ es 0 Hall), (pass2_written H o _ es _ Hall).
      rewrite Hp. cbn [String.append].
      assert (Hne : es <> nil) by (intros ->; cbn in Hes; lia).
      rewrite (written_for_text H es Hne).
      unfold slen. rewrite string_length_app. cbn [String.length].
      replace (Z.to_nat (0 + Z.of_nat (String.length (text_form_spec H es) + 1) - 1))
        with (String.length (text_form_spec H es)) by lia.
      change ("" ++ text_form_spec H es ++ " ")%string
        with (text_form_spec H es ++ " ")%string.
      rewrite substring_prefix. reflexivity.
  - intros Hz. destruct es; [reflexivity|cbn in Hes; lia].
Qed.

Lemma string_joins_the_elements_witness :
  objs odd_store !! 1%positive = Some odd_series /\
  0 <= 5 <= Wide.INT_MAX /\
  construct tcl8 false (Some (NumInt 1)) (Some (NumInt 10)) (Some (NumInt 2)) None
    empty_store = Ret (1%positive, odd_store) /\
  run (observe 1%positive ∘ (fun _ => odd_store))
  = Ret (5, [Ret (TCL_OK, Some (NumInt 1)); Ret (TCL_OK, Some (NumInt 3));
             Ret (TCL_OK, Some (NumInt 5)); Ret (TCL_OK, Some (NumInt 7));
             Ret (TCL_OK, Some (NumInt 9))]) /\
  UpdateStringOfArithSeries tcl8 1%positive odd_store
  = Ret (tt, store_with odd_store 1%positive
               {| refCount := 0; bytes := Some "1 3 5 7 9"%string;
                  internalRep := internalRep odd_series |}).
Proof.
  split; [reflexivity|]. split; [vm_compute; split; discriminate|].
  split; [vm_compute; reflexivity|]. split; [vm_compute; reflexivity|].
  refine (proj1 (string_joins_the_elements tcl8 odd_store 1%positive
            odd_series {| bounds := IntBounds 1 10 2; len := 5; elements := None |}
            [NumInt 1; NumInt 3; NumInt 5; NumInt 7; NumInt 9]
            eq_refl eq_refl _ eq_refl _)).
  - vm_compute; split; discriminate.
  - intros [|[|[|[|[|i]]]]] e; cbn; intros [= <-]; vm_compute; reflexivity.
Defined.

(** C9 at the failing input: the series 0, 1, 2, ... of 2^32 elements,
    which Tcl 9 constructs from its count and Tcl 8 from a negative count
    (the count is then computed from the bounds, past the list size
    limit), has 2^32 elements, the first 0 and the last 2^32 - 1, and its
    string representation is the empty string: the renderer takes the
    count through a C [int]. *)
Theorem C9_string_of_wide_count_is_empty :
  run (p <- construct tcl9 false (Some (NumInt 0)) None (Some (NumInt 1))
              (Some (NumInt (2 ^ 32))) ;;
       UpdateStringOfArithSeries tcl9 p ;;;
       o <- get_obj p ;;
       ret (TclArithSeriesObjLength o, TclArithSeriesObjIndex o 0,
            TclArithSeriesObjIndex o (2 ^ 32 - 1), bytes o))
  = Ret (Ret (2 ^ 32), Ret (TCL_OK, Some (NumInt 0)),
         Ret (TCL_OK, Some (NumInt (2 ^ 32 - 1))), Some EmptyString) /\
  run (p <- construct tcl8 false (Some (NumInt 0)) (Some (NumInt (2 ^ 32 - 1)))
              (Some (NumInt 1)) (Some (NumInt (-1))) ;;
       UpdateStringOfArithSeries tcl8 p ;;;
       o <- get_obj p ;;
       ret (TclArithSeriesObjLength o, TclArithSeriesObjIndex o 0,
            TclArithSeriesObjIndex o (2 ^ 32 - 1), bytes o))
  = Ret (Ret (2 ^ 32), Ret (TCL_OK, Some (NumInt 0)),
         Ret (TCL_OK, Some (NumInt (2 ^ 32 - 1))), Some EmptyString).
Proof. split; vm_compute; reflexivity. Qed.

(** * Further properties *)

(** ** Construction *)

(** Whatever its arguments, a construction that stores a series stores a
    new object with at least one element, no cached elements, no string
    representation, no reference yet, of the requested kind. *)
Theorem constructed_series_invariant (H : Host) (interp : InterpPtr)
    (useDoubles : bool) (startObj endObj stepObj lenObj : option Number)
    (s s' : store) (st : status) (p : loc) (o : Tcl_Obj) (r : ArithSeries) :
  TclNewArithSeriesObj H interp useDoubles startObj endObj stepObj lenObj s
  = Ret ((st, Some p), s') ->
  objs s' !! p = Some o -> concrete_rep o = Some r ->
  objs s !! p = None /\ st = TCL_OK /\
  1 <= len r /\ elements r = None /\ isDouble r = useDoubles /\
  refCount o = 0 /\ bytes o = None.
Proof.
  unfold TclNewArithSeriesObj, bind, lift.
  assert (Hleaf : forall b n q s0,
            (if n <=? 0 then TclNewObj else new_series b n) s = Ret (q, s0) ->
            q = p -> s0 = s' ->
            objs s' !! p = Some o -> concrete_rep o = Some r ->
            objs s !! p = None /\ 1 <= len r /\ elements r = None /\
            isDouble r = (match b with DblBounds _ _ _ => true | _ => false end) /\
            refCount o = 0 /\ bytes o = None).
  { intros b n q s0.
    destruct (Z.leb_spec n 0) as [Hn|Hn]; cbn; intros [= <- <-] <- <- Ho Hr;
      rewrite lookup_store_with_eq in Ho; injection Ho as <-; [discriminate|].
    injection Hr as <-. cbn. repeat split; try reflexivity; try lia.
    apply alloc_loc_fresh. }
  destruct (infer useDoubles startObj endObj stepObj lenObj) as [[| |l]|];
    cbn; try discriminate.
  - intros [= <- <- <-] Ho Hr. rewrite lookup_store_with_eq in Ho.
    injection Ho as <-. discriminate.
  - destruct (l_len l) as [k|]; cbn; [|discriminate].
    destruct ((TCL_MAJOR_VERSION H <? 9) && (k >? ListSizeT_MAX H)).
    { destruct interp; [discriminate|].
      unfold alloc_obj, Tcl_IncrRefCount, bind, get_obj, set_obj, ret.
      rewrite lookup_store_with_eq. discriminate. }
    destruct useDoubles.
    + destruct (l_dstart l) as [a|]; cbn; [|discriminate].
      destruct (l_dend l) as [b|]; cbn; [|discriminate].
      destruct (l_dstep l) as [d|]; cbn; [|discriminate].
      unfold TclNewArithSeriesDbl, bind, lift, ret.
      destruct (k >=? 0); cbn.
      * destruct ((if k <=? 0 then TclNewObj else new_series (DblBounds a b d) k) s)
          as [[q s0]|] eqn:E; [|discriminate].
        intros [= <- Eq Es] Ho Hr.
        destruct (Hleaf (DblBounds a b d) k q s0 E Eq Es Ho Hr)
          as (? & ? & ? & ? & ? & ?). repeat split; assumption.
      * destruct (Dbl.to_wide a) as [a'|]; cbn; [|discriminate].
        destruct (Dbl.to_wide b) as [b'|]; cbn; [|discriminate].
        destruct (Dbl.to_wide d) as [d'|]; cbn; [|discriminate].
        destruct (call_ArithSeriesLen a' b' d') as [k'|]; cbn; [|discriminate].
        destruct ((if k' <=? 0 then TclNewObj
                   else new_series (DblBounds a b d) k') s)
          as [[q s0]|] eqn:E; [|discriminate].
        intros [= <- Eq Es] Ho Hr.
        destruct (Hleaf (DblBounds a b d) _ q s0 E Eq Es Ho Hr)
          as (? & ? & ? & ? & ? & ?). repeat split; assumption.
    + destruct (l_start l) as [a|]; cbn; [|discriminate].
      destruct (l_end l) as [b|]; cbn; [|discriminate].
      destruct (l_step l) as [d|]; cbn; [|discriminate].
      unfold TclNewArithSeriesInt, bind, lift, ret.
      destruct (k >=? 0); cbn.
      * destruct ((if k <=? 0 then TclNewObj else new_series (IntBounds a b d) k) s)
          as [[q s0]|] eqn:E; [|discriminate].
        intros [= <- Eq Es] Ho Hr.
        destruct (Hleaf (IntBounds a b d) k q s0 E Eq Es Ho Hr)
          as (? & ? & ? & ? & ? & ?). repeat split; assumption.
      * destruct (call_ArithSeriesLen a b d) as [k'|]; cbn; [|discriminate].
        destruct ((if k' <=? 0 then TclNewObj
                   else new_series (IntBounds a b d) k') s)
          as [[q s0]|] eqn:E; [|discriminate].
        intros [= <- Eq Es] Ho Hr.
        destruct (Hleaf (IntBounds a b d) _ q s0 E Eq Es Ho Hr)
          as (? & ? & ? & ? & ? & ?). repeat split; assumption.
Qed.

Lemma constructed_series_invariant_witness :
  TclNewArithSeriesObj tcl8 Interp false (Some (NumInt 1)) (Some (NumInt 10))
    (Some (NumInt 2)) None empty_store
  = Ret ((TCL_OK, Some 1%positive), odd_store) /\
  objs odd_store !! 1%positive = Some odd_series /\
  objs empty_store !! 1%positive = None /\ 1 <= len
    {| bounds := IntBounds 1 10 2; len := 5; elements := None |}.
Proof.
  assert (E : TclNewArithSeriesObj tcl8 Interp false (Some (NumInt 1)) (Some (NumInt 10))
                (Some (NumInt 2)) None empty_store
              = Ret ((TCL_OK, Some 1%positive), odd_store))
    by (vm_compute; reflexivity).
  split; [exact E|]. split; [reflexivity|].
  destruct (constructed_series_invariant tcl8 Interp false _ _ _ _ _ _ _ _ odd_series
              {| bounds := IntBounds 1 10 2; len := 5; elements := None |}
              E eq_refl eq_refl) as (Hfresh & _ & Hlen & _).
  split; assumption.
Defined.

(** A count that is not an integer is an error: with the step absent or a
    nonzero integer, construction returns [TCL_ERROR] and stores nothing,
    in either mode and with or without an interpreter; the store is
    unchanged (what [Tcl_GetWideIntFromObj] leaves in a given interpreter
    is the host's). *)
Theorem non_integer_count_is_an_error (H : Host) (interp : InterpPtr)
    (useDoubles : bool) (startObj endObj stepObj : option Number) (d : double)
    (s : store) :
  stepObj = None \/ (exists i, stepObj = Some (NumInt i) /\ i <> 0) ->
  TclNewArithSeriesObj H interp useDoubles startObj endObj stepObj
    (Some (NumDbl d)) s
  = Ret ((TCL_ERROR, None), s).
Proof.
  intros Hstep.
  assert (Hinf : infer useDoubles startObj endObj stepObj (Some (NumDbl d))
                 = Ret BadLength).
  { unfold infer.
    destruct Hstep as [->|(i & -> & Hi)].
    - destruct startObj as [[?|[]]|], endObj as [[?|[]]|], useDoubles; reflexivity.
    - assert (Hz : Dbl.eqb (Dbl.of_wide i) Dbl.zero = false)
        by (rewrite of_wide_eqb_zero; lia).
      destruct startObj as [[?|[]]|], endObj as [[?|[]]|], useDoubles; cbn;
        rewrite Hz; reflexivity. }
  unfold TclNewArithSeriesObj, bind, lift. rewrite Hinf. reflexivity.
Qed.

Lemma non_integer_count_is_an_error_witness :
  (Some (NumInt 2) = None \/ (exists i, Some (NumInt 2) = Some (NumInt i) /\ i <> 0)) /\
  TclNewArithSeriesObj tcl8 Interp false (Some (NumInt 1)) None
    (Some (NumInt 2)) (Some (NumDbl d0_1)) empty_store
  = Ret ((TCL_ERROR, None), empty_store).
Proof.
  assert (Hs : Some (NumInt 2) = None \/
               (exists i, Some (NumInt 2) = Some (NumInt i) /\ i <> 0)).
  { right. exists 2. split; [reflexivity|discriminate]. }
  split; [exact Hs|].
  apply (non_integer_count_is_an_error tcl8 Interp false (Some (NumInt 1)) None
           (Some (NumInt 2)) d0_1 empty_store Hs).
Defined.

(** Before Tcl 9 a count above the list size limit is an error that needs
    an interpreter: with integer arguments and a nonzero step, a
    construction that is given one returns [TCL_ERROR], stores no series,
    and leaves one new object, the message, with the reference the
    interpreter holds; with a NULL interpreter, which is what every call
    in this file passes, the report goes through NULL and the call has no
    defined result. *)
Theorem count_over_limit_is_an_error (H : Host) (start end_ : option Z)
    (st n : Z) (s : store) :
  st <> 0 -> TCL_MAJOR_VERSION H < 9 -> ListSizeT_MAX H < n ->
  TclNewArithSeriesObj H Interp false (NumInt <$> start) (NumInt <$> end_)
    (Some (NumInt st)) (Some (NumInt n)) s
  = Ret ((TCL_ERROR, None),
         store_with s (alloc_loc s)
           {| refCount := 1;
              bytes := Some "max length of a Tcl list exceeded"%string;
              internalRep := NoRep |}) /\
  TclNewArithSeriesObj H NULL false (NumInt <$> start) (NumInt <$> end_)
    (Some (NumInt st)) (Some (NumInt n)) s
  = Stuck.
Proof.
  intros Hst Hv Hn.
  unfold TclNewArithSeriesObj, infer, bind, lift.
  destruct start as [a|], end_ as [b|]; cbn; rewrite of_wide_eqb_zero;
    replace (st =? 0) with false by lia; cbn;
    replace ((TCL_MAJOR_VERSION H <? 9) && (n >? ListSizeT_MAX H)) with true by lia;
    (split; [|reflexivity]);
    unfold alloc_obj, Tcl_IncrRefCount, bind, get_obj, set_obj, ret;
    rewrite lookup_store_with_eq; unfold store_with; cbn;
    rewrite insert_insert_eq; reflexivity.
Qed.

Lemma count_over_limit_is_an_error_witness :
  2 <> 0 /\ TCL_MAJOR_VERSION tcl8 < 9 /\ ListSizeT_MAX tcl8 < 2 ^ 31 /\
  TclNewArithSeriesObj tcl8 Interp false (Some (NumInt 0)) None (Some (NumInt 2))
    (Some (NumInt (2 ^ 31))) empty_store
  = Ret ((TCL_ERROR, None),
         store_with empty_store (alloc_loc empty_store)
           {| refCount := 1;
              bytes := Some "max length of a Tcl list exceeded"%string;
              internalRep := NoRep |}) /\
  TclNewArithSeriesObj tcl8 NULL false (Some (NumInt 0)) None (Some (NumInt 2))
    (Some (NumInt (2 ^ 31))) empty_store
  = Stuck.
Proof.
  split; [discriminate|]. split; [reflexivity|]. split; [reflexivity|].
  apply (count_over_limit_is_an_error tcl8 (Some 0) None 2 (2 ^ 31) empty_store);
    [discriminate | reflexivity | reflexivity].
Defined.

(** In integer mode an integer step takes the zero-step exit of line 373
    exactly when it is 0: the test is made on the step converted to double,
    and no nonzero integer converts to zero. *)
Theorem zero_step_exit_iff_zero (startObj endObj lenObj : option Number) (i : Z) :
  infer false startObj endObj (Some (NumInt i)) lenObj = Ret ZeroStep <-> i = 0.
Proof.
  split.
  - intros E. destruct (Z.eq_dec i 0) as [|Hi]; [assumption|]. exfalso.
    assert (Hz : Dbl.eqb (Dbl.of_wide i) Dbl.zero = false)
      by (rewrite of_wide_eqb_zero; lia).
    unfold infer in E.
    destruct startObj as [[a|da]|], endObj as [[b|db]|], lenObj as [[n|dn]|];
      cbn in E; rewrite ?Hz in E; cbn in E;
      repeat match type of E with
             | context [Dbl.to_wide ?x] =>
                 destruct (Dbl.to_wide x); cbn in E; rewrite ?Hz in E; cbn in E
             | context [Wide.div_traps ?x ?y] =>
                 destruct (Wide.div_traps x y); cbn in E
             end;
      discriminate.
  - intros ->. unfold infer.
    destruct startObj as [[a|da]|]; reflexivity.
Qed.

(** ** The constructor slot *)

(** [Tcl_NewArithSeriesObj] returns NULL and touches nothing unless it is
    given exactly four values; given four integers (nonzero step, a count of
    at least one that the list size limit admits) it returns a new integer
    series with exactly these fields: the count is taken as given, not
    recomputed from the bounds. *)
Theorem constructor_slot_takes_four_integers (H : Host) (objc : Z)
    (objv : list Number) (a b st n : Z) (s : store) :
  (objc <> 4 -> Tcl_NewArithSeriesObj H objc objv s = Ret (None, s)) /\
  (st <> 0 -> 1 <= n -> (TCL_MAJOR_VERSION H < 9 -> n <= ListSizeT_MAX H) ->
   Tcl_NewArithSeriesObj H 4 [NumInt a; NumInt b; NumInt st; NumInt n] s
   = Ret (Some (alloc_loc s),
          store_with s (alloc_loc s) (series_obj (IntBounds a b st) n))).
Proof.
  split.
  - intros Hc. unfold Tcl_NewArithSeriesObj.
    replace (negb (objc =? 4)) with true by lia. reflexivity.
  - intros Hst Hn Hsize. unfold Tcl_NewArithSeriesObj, bind, lift. cbn.
    rewrite (new_int_with_len H NULL a b st n s Hst Hn Hsize). reflexivity.
Qed.

Lemma constructor_slot_takes_four_integers_witness :
  (3 <> 4) /\ (2 <> 0) /\ (1 <= 3) /\
  Tcl_NewArithSeriesObj tcl8 3 [NumInt 1; NumInt 10; NumInt 2] empty_store
  = Ret (None, empty_store) /\
  Tcl_NewArithSeriesObj tcl8 4 [NumInt 1; NumInt 10; NumInt 2; NumInt 3] empty_store
  = Ret (Some (alloc_loc empty_store),
         store_with empty_store (alloc_loc empty_store)
           (series_obj (IntBounds 1 10 2) 3)).
Proof.
  split; [discriminate|]. split; [discriminate|]. split; [lia|].
  split.
  - apply (proj1 (constructor_slot_takes_four_integers tcl8 3
              [NumInt 1; NumInt 10; NumInt 2] 0 0 0 0 empty_store)).
    discriminate.
  - apply (proj2 (constructor_slot_takes_four_integers tcl8 4 [] 1 10 2 3
              empty_store)); [discriminate | lia | intros _; vm_compute; discriminate].
Defined.

(** ** Length arithmetic *)

Lemma quot_with_step x st :
  st <> 0 -> 0 <= x * st -> 0 <= x ÷ st /\ x ÷ st = x / st.
Proof.
  intros Hst Hx.
  destruct (Z.eq_dec x 0) as [->|Hx0].
  - rewrite Z.quot_0_l, Z.div_0_l by assumption. lia.
  - destruct (Z.lt_trichotomy st 0) as [Hneg|[?|Hpos]]; [|lia|].
    + assert (x < 0) by nia.
      assert (E : x ÷ st = (- x) ÷ (- st)) by (rewrite Z.quot_opp_opp; lia).
      rewrite E. split; [apply Z.quot_pos; lia|].
      rewrite Z.quot_div_nonneg by lia. apply Z.div_opp_opp. lia.
    + assert (0 < x) by nia.
      split; [apply Z.quot_pos; lia|]. apply Z.quot_div_nonneg; lia.
Qed.

Lemma ArithSeriesLen_with_step a b st :
  - 2 ^ 31 <= a <= 2 ^ 31 -> - 2 ^ 31 <= b <= 2 ^ 31 -> st <> 0 ->
  0 <= (b - a) * st ->
  ArithSeriesLen a b st = (b - a) / st + 1 /\ 1 <= ArithSeriesLen a b st.
Proof.
  change (2 ^ 31) with 2147483648. intros Ha Hb Hst Hdir.
  destruct (quot_with_step (b - a) st Hst Hdir) as [Hnn Hq].
  pose proof (quot_bound (b - a) st Hst) as Hbd.
  unfold ArithSeriesLen, Wide.add, Wide.quot, Wide.sub.
  replace (st =? 0) with false by lia. cbn [negb].
  rewrite (modest_wrap (b - a)) by lia.
  rewrite (modest_wrap ((b - a) ÷ st)) by lia.
  rewrite (modest_wrap (1 + (b - a) ÷ st)) by lia.
  replace (1 + (b - a) ÷ st <? 0) with false by lia. lia.
Qed.

(** On a range that runs with its step, the length is at least one, the
    last element [start + (len-1)*step] does not pass [end], and one more
    step would. *)
Theorem length_brackets_the_end (a b st : Z) :
  - 2 ^ 31 <= a <= 2 ^ 31 -> - 2 ^ 31 <= b <= 2 ^ 31 -> st <> 0 ->
  0 <= (b - a) * st ->
  let n := ArithSeriesLen a b st in
  let last := a + (n - 1) * st in
  1 <= n /\ 0 <= (b - last) * st /\ Z.abs (b - last) < Z.abs st.
Proof.
  intros Ha Hb Hst Hdir n last.
  destruct (ArithSeriesLen_with_step a b st Ha Hb Hst Hdir) as [E Hn].
  subst last n. rewrite E in *.
  replace (b - (a + ((b - a) / st + 1 - 1) * st)) with ((b - a) mod st)
    by (rewrite Z.mod_eq by assumption; ring).
  split; [lia|].
  destruct (Z.lt_trichotomy st 0) as [Hneg|[?|Hpos]]; [|lia|].
  - pose proof (Z.mod_neg_bound (b - a) st Hneg). split; nia.
  - pose proof (Z.mod_pos_bound (b - a) st Hpos). split; nia.
Qed.

Lemma length_brackets_the_end_witness :
  - 2 ^ 31 <= 1 <= 2 ^ 31 /\ - 2 ^ 31 <= 10 <= 2 ^ 31 /\ 2 <> 0 /\
  0 <= (10 - 1) * 2 /\
  1 <= ArithSeriesLen 1 10 2 /\
  0 <= (10 - (1 + (ArithSeriesLen 1 10 2 - 1) * 2)) * 2 /\
  Z.abs (10 - (1 + (ArithSeriesLen 1 10 2 - 1) * 2)) < Z.abs 2.
Proof.
  assert (H1 : - 2 ^ 31 <= 1 <= 2 ^ 31) by (cbn; lia).
  assert (H2 : - 2 ^ 31 <= 10 <= 2 ^ 31) by (cbn; lia).
  split; [exact H1|]. split; [exact H2|]. split; [discriminate|].
  split; [lia|].
  apply (length_brackets_the_end 1 10 2 H1 H2); [discriminate|lia].
Defined.

Lemma quot_in_range x st :
  st <> 0 -> Wide.in_range x -> x <> Wide.MIN \/ st <> -1 ->
  Wide.in_range (x ÷ st).
Proof.
  intros Hst Hx Hne. pose proof (quot_bound x st Hst) as Hb.
  destruct (Z.eq_dec x Wide.MIN) as [->|Hx'].
  - destruct (Z.eq_dec st 1) as [->|Hs1]; [rewrite Z.quot_1_r; assumption|].
    assert (Hlt : Z.abs (Wide.MIN ÷ st) < Z.abs Wide.MIN).
    { rewrite <- Z.quot_abs by assumption.
      apply Z.quot_lt; [vm_compute; reflexivity|lia]. }
    wide_consts. lia.
  - wide_consts. lia.
Qed.

(** The count that construction computes at line 402 and the one
    [ArithSeriesLen] computes agree on every range that runs with its step
    and on which neither [end - start] nor [end - start + step] overflows
    and the division of line 402 is defined (the step is not zero, and
    the division is not LLONG_MIN / -1). *)
Theorem both_length_formulas_agree (a b st : Z) :
  Wide.in_range (b - a) -> Wide.in_range (b - a + st) ->
  Wide.div_traps (b - a + st) st = false ->
  0 <= (b - a) * st ->
  Wide.quot (Wide.add (Wide.sub b a) st) st = ArithSeriesLen a b st.
Proof.
  intros Hd Hs Htrap Hdir. unfold Wide.div_traps in Htrap.
  assert (Hst : st <> 0) by lia.
  destruct (quot_with_step (b - a) st Hst Hdir) as [Hnn Hq].
  assert (Hsplit : (b - a + st) ÷ st = (b - a) ÷ st + 1).
  { replace (b - a + st) with (b - a + 1 * st) by ring.
    apply Z.quot_add; [assumption|nia]. }
  assert (Hne : b - a + st <> Wide.MIN \/ st <> -1) by lia.
  pose proof (quot_in_range (b - a + st) st Hst Hs Hne) as Hr.
  unfold ArithSeriesLen, Wide.quot, Wide.add, Wide.sub.
  replace (st =? 0) with false by lia. cbn [negb].
  rewrite (wrap_in_range (b - a)) by assumption.
  rewrite (wrap_in_range (b - a + st)) by assumption.
  rewrite (wrap_in_range ((b - a + st) ÷ st)) by assumption.
  rewrite (wrap_in_range ((b - a) ÷ st)) by (wide_consts; lia).
  rewrite (wrap_in_range (1 + (b - a) ÷ st)) by (wide_consts; lia).
  replace (1 + (b - a) ÷ st <? 0) with false by lia. lia.
Qed.

Lemma both_length_formulas_agree_witness :
  Wide.in_range (1 - 10) /\ Wide.in_range (1 - 10 + -2) /\
  Wide.div_traps (1 - 10 + -2) (-2) = false /\
  0 <= (1 - 10) * -2 /\
  Wide.quot (Wide.add (Wide.sub 1 10) (-2)) (-2) = ArithSeriesLen 10 1 (-2) /\
  Wide.quot (Wide.add (Wide.sub Wide.MAX 0) 1) 1 <> ArithSeriesLen 0 Wide.MAX 1.
Proof.
  assert (H1 : Wide.in_range (1 - 10)) by (vm_compute; split; discriminate).
  assert (H2 : Wide.in_range (1 - 10 + -2)) by (vm_compute; split; discriminate).
  split; [exact H1|]. split; [exact H2|].
  split; [reflexivity|]. split; [lia|]. split.
  - apply (both_length_formulas_agree 10 1 (-2) H1 H2); [reflexivity|lia].
  - vm_compute. discriminate.
Defined.

Lemma quot_against_pos x st :
  0 < st -> x < 0 ->
  (x + st) ÷ st <= 0 /\ ((x + st) ÷ st < 0 -> 1 + x ÷ st <= 0).
Proof.
  intros Hst Hx.
  assert (Hxq : x ÷ st = - ((- x) ÷ st)).
  { rewrite <- Z.quot_opp_l by lia. rewrite Z.opp_involutive. reflexivity. }
  destruct (Z.le_gt_cases 0 (x + st)) as [Hnn|Hneg].
  - rewrite Z.quot_small by lia. split; lia.
  - assert (Hq : (x + st) ÷ st = - ((- (x + st)) ÷ st)).
    { rewrite <- Z.quot_opp_l by lia. rewrite Z.opp_involutive. reflexivity. }
    assert (0 <= (- (x + st)) ÷ st) by (apply Z.quot_pos; lia).
    assert (0 < (- x) ÷ st) by (apply Z.quot_str_pos; lia).
    split; lia.
Qed.

Lemma quot_against x st :
  x * st < 0 ->
  (x + st) ÷ st <= 0 /\ ((x + st) ÷ st < 0 -> 1 + x ÷ st <= 0).
Proof.
  intros Hdir.
  destruct (Z.lt_trichotomy st 0) as [Hneg|[->|Hpos]]; [|lia|].
  - assert (0 < x) by nia.
    replace ((x + st) ÷ st) with ((- x + - st) ÷ - st)
      by (rewrite <- Z.opp_add_distr, Z.quot_opp_opp by lia; reflexivity).
    replace (x ÷ st) with ((- x) ÷ (- st)) by (apply Z.quot_opp_opp; lia).
    apply quot_against_pos; lia.
  - assert (x < 0) by nia. apply quot_against_pos; assumption.
Qed.

(** A range that runs against its step is empty: with integer start, end
    and step and no count, such that [end - start] and [step] have
    opposite signs and neither [end - start] nor [end - start + step]
    overflows, construction returns [TCL_OK] and stores a new empty value
    (the list size limit is not negative). *)
Theorem range_against_step_is_empty (H : Host) (interp : InterpPtr)
    (a b st : Z) (s : store) :
  Wide.in_range (b - a) -> Wide.in_range (b - a + st) ->
  (b - a) * st < 0 ->
  (TCL_MAJOR_VERSION H < 9 -> 0 <= ListSizeT_MAX H) ->
  TclNewArithSeriesObj H interp false (Some (NumInt a)) (Some (NumInt b))
    (Some (NumInt st)) None s
  = Ret ((TCL_OK, Some (alloc_loc s)), store_with s (alloc_loc s) empty_obj).
Proof.
  intros Hd Hs Hdir Hlim.
  assert (Hst : st <> 0) by nia.
  destruct (quot_against (b - a) st Hdir) as [HL0 HA0].
  assert (Hne : b - a + st <> Wide.MIN \/ st <> -1).
  { destruct (Z.eq_dec st (-1)) as [->|]; [left|right; assumption].
    wide_consts. lia. }
  assert (Hne' : b - a <> Wide.MIN \/ st <> -1).
  { destruct (Z.eq_dec st (-1)) as [->|]; [left|right; assumption].
    wide_consts. lia. }
  pose proof (quot_in_range (b - a + st) st Hst Hs Hne) as Hr.
  pose proof (quot_in_range (b - a) st Hst Hd Hne') as Hr'.
  set (L := (b - a + st) ÷ st) in *.
  assert (HL : L <= 0) by exact HL0.
  assert (HA : L < 0 -> ArithSeriesLen a b st <= 0).
  { intros HLneg. specialize (HA0 HLneg).
    unfold ArithSeriesLen, Wide.add, Wide.quot, Wide.sub.
    replace (st =? 0) with false by lia. cbn [negb].
    rewrite (wrap_in_range (b - a)) by assumption.
    rewrite (wrap_in_range ((b - a) ÷ st)) by assumption.
    rewrite (wrap_in_range (1 + (b - a) ÷ st)) by (wide_consts; lia).
    destruct (Z.ltb_spec (1 + (b - a) ÷ st) 0); lia. }
  unfold TclNewArithSeriesObj, infer, bind, lift. cbn.
  rewrite of_wide_eqb_zero. replace (st =? 0) with false by lia. cbn.
  assert (EL : Wide.quot (Wide.add (Wide.sub b a) st) st = L).
  { unfold Wide.quot, Wide.add, Wide.sub.
    rewrite (wrap_in_range (b - a)), (wrap_in_range (b - a + st)) by assumption.
    apply wrap_in_range. assumption. }
  assert (ET : Wide.div_traps (Wide.add (Wide.sub b a) st) st = false).
  { unfold Wide.div_traps, Wide.add, Wide.sub.
    rewrite (wrap_in_range (b - a)), (wrap_in_range (b - a + st)) by assumption.
    replace (st =? 0) with false by lia. cbn [orb]. lia. }
  assert (ET' : Wide.div_traps (Wide.sub b a) st = false).
  { unfold Wide.div_traps, Wide.sub. rewrite (wrap_in_range (b - a)) by assumption.
    replace (st =? 0) with false by lia. cbn [orb]. lia. }
  rewrite ET. cbn. rewrite EL.
  replace ((TCL_MAJOR_VERSION H <? 9) && (L >? ListSizeT_MAX H)) with false by lia.
  cbn. unfold TclNewArithSeriesInt, call_ArithSeriesLen, bind, lift, ret.
  rewrite ET', andb_false_r.
  destruct (Z.geb_spec L 0) as [Hge|Hlt].
  - replace (L <=? 0) with true by lia. reflexivity.
  - replace (ArithSeriesLen a b st <=? 0) with true by (specialize (HA Hlt); lia).
    reflexivity.
Qed.

Lemma range_against_step_is_empty_witness :
  Wide.in_range (10 - 1) /\ Wide.in_range (10 - 1 + -1) /\ (10 - 1) * -1 < 0 /\
  TclNewArithSeriesObj tcl8 Interp false (Some (NumInt 1)) (Some (NumInt 10))
    (Some (NumInt (-1))) None empty_store
  = Ret ((TCL_OK, Some (alloc_loc empty_store)),
         store_with empty_store (alloc_loc empty_store) empty_obj).
Proof.
  assert (H1 : Wide.in_range (10 - 1)) by (vm_compute; split; discriminate).
  assert (H2 : Wide.in_range (10 - 1 + -1)) by (vm_compute; split; discriminate).
  split; [exact H1|]. split; [exact H2|]. split; [lia|].
  apply (range_against_step_is_empty tcl8 Interp 1 10 (-1) empty_store H1 H2);
    [lia | intros _; vm_compute; discriminate].
Defined.

(** ** Slices and reversals of integer series *)







(** ** Slices the code does not define *)

(** A slice whose last index is at or beyond the count has no result, on
    any series: the index call fails without assigning [endObj] (or
    [startObj]), and the pointer is used at once. *)
Theorem slice_past_the_end_is_undefined (H : Host) (s : store) (p : loc)
    (o : Tcl_Obj) (r : ArithSeries) (from to : Z) :
  objs s !! p = Some o -> concrete_rep o = Some r ->
  Z.max 0 from <= to -> len r <= to ->
  TclArithSeriesObjRange H p from to s = Stuck.
Proof.
  intros Hp Hrep Hf Ht.
  unfold TclArithSeriesObjRange, bind, lift, get_obj.
  rewrite Hp, Hrep. cbn [rd]. rewrite clamp_max.
  replace (Z.max 0 from >? to) with false by lia.
  destruct (TclArithSeriesObjIndex o (Z.max 0 from)) as [[st1 [x1|]]|];
    cbn; try reflexivity.
  rewrite (index_out_of_range o r to Hrep) by lia. reflexivity.
Qed.

Lemma slice_past_the_end_is_undefined_witness :
  objs odd_store !! 1%positive = Some odd_series /\
  Z.max 0 2 <= 5 /\ 5 <= 5 /\
  TclArithSeriesObjRange tcl8 1%positive 2 5 odd_store = Stuck.
Proof.
  split; [reflexivity|]. split; [lia|]. split; [lia|].
  apply (slice_past_the_end_is_undefined tcl8 odd_store 1%positive odd_series
           {| bounds := IntBounds 1 10 2; len := 5; elements := None |} 2 5
           eq_refl eq_refl); cbn; lia.
Defined.

(** A non-empty slice of a float series that has at most one reference has
    no result: the in-place branch stores the new fields through the
    [Tcl_Obj] pointer cast to [ArithSeriesDbl*] (line 666), not through the
    representation. *)
Theorem float_slice_in_place_is_undefined (H : Host) (s : store) (p : loc)
    (o : Tcl_Obj) (r : ArithSeries) (from to : Z) :
  objs s !! p = Some o -> concrete_rep o = Some r ->
  isDouble r = true -> refCount o <= 1 -> Z.max 0 from <= to ->
  TclArithSeriesObjRange H p from to s = Stuck.
Proof.
  intros Hp Hrep Hd Hex Hf.
  unfold TclArithSeriesObjRange, bind, lift, get_obj.
  rewrite Hp, Hrep. cbn [rd]. rewrite clamp_max, shared_test, Hd.
  replace (Z.max 0 from >? to) with false by lia.
  replace (refCount o >? 1) with false by lia.
  destruct (TclArithSeriesObjIndex o (Z.max 0 from)) as [[st1 [x1|]]|];
    cbn; try reflexivity.
  destruct (TclArithSeriesObjIndex o to) as [[st2 [x2|]]|]; cbn; try reflexivity.
  destruct (TclArithSeriesObjStep o) as [x3|]; cbn; try reflexivity.
  unfold TclInvalidateStringRep, bind, get_obj, set_obj. rewrite Hp. reflexivity.
Qed.

Lemma float_slice_in_place_is_undefined_witness :
  construct tcl8 true (Some (NumDbl Dbl.zero)) None (Some (NumDbl d0_1))
    (Some (NumInt 6)) empty_store = Ret (1%positive, float_store) /\
  objs float_store !! 1%positive = Some float_series /\
  isDouble {| bounds := DblBounds Dbl.zero
                (Dbl.add Dbl.zero (Dbl.mul d0_1 (Dbl.of_wide 5))) d0_1;
              len := 6; elements := None |} = true /\
  refCount float_series <= 1 /\ Z.max 0 1 <= 3 /\
  TclArithSeriesObjRange tcl8 1%positive 1 3 float_store = Stuck.
Proof.
  split; [vm_compute; reflexivity|]. split; [reflexivity|].
  split; [reflexivity|]. split; [cbn; lia|]. split; [lia|].
  apply (float_slice_in_place_is_undefined tcl8 float_store 1%positive
           float_series _ 1 3 eq_refl eq_refl eq_refl); cbn; lia.
Defined.

(** ** The cached elements *)

(** The loop that materialises the elements. *)
Lemma fill_elements_spec o idx es :
  Forall2 (fun i e => TclArithSeriesObjIndex o i = Ret (TCL_OK, Some e)) idx es ->
  forall s, exists qs s',
    fill_elements o idx s = Ret (Some qs, s') /\
    arrays s' = arrays s /\
    (forall x, x ∉ qs -> objs s' !! x = objs s !! x) /\
    NoDup qs /\
    (forall q, q ∈ qs -> objs s !! q = None) /\
    Forall2 (fun q e => objs s' !! q = Some (element_obj e)) qs es.
Proof.
  induction 1 as [|i e idx es Hi _ IH]; intros s.
  - exists [], s. repeat split; try constructor. intros q Hq. inversion Hq.
  - cbn [fill_elements]. unfold bind at 1, lift at 1. rewrite Hi.
    unfold bind at 1, alloc_obj.
    unfold bind at 1, Tcl_IncrRefCount, bind at 1, get_obj, set_obj.
    rewrite lookup_store_with_eq. cbn [refCount bytes internalRep].
    set (q := alloc_loc s).
    set (s2 := store_with (store_with s q _) q _).
    assert (Hq2 : objs s2 !! q = Some (element_obj e))
      by (unfold s2; rewrite lookup_store_with_eq; reflexivity).
    assert (Hold : forall x, x <> q -> objs s2 !! x = objs s !! x).
    { intros x Hx. unfold s2. rewrite !lookup_store_with_ne by congruence.
      reflexivity. }
    assert (Hfresh : objs s !! q = None) by apply alloc_loc_fresh.
    destruct (IH s2) as (qs & s' & E & Ha & Hpres & Hnd & Hnew & Hall).
    assert (Hqq : q ∉ qs).
    { intros Hin. specialize (Hnew q Hin). congruence. }
    unfold bind. rewrite E. cbn [ret].
    exists (q :: qs), s'. split; [reflexivity|]. split; [exact Ha|].
    split; [|split; [|split]].
    + intros x Hx. apply not_elem_of_cons in Hx as [Hxq Hx].
      rewrite Hpres by assumption. apply Hold. assumption.
    + apply NoDup_cons. split; assumption.
    + intros q' Hq'. apply elem_of_cons in Hq' as [->|Hq']; [assumption|].
      specialize (Hnew q' Hq'). assert (q' <> q) by congruence.
      rewrite <- Hold by assumption. assumption.
    + constructor; [|assumption]. rewrite Hpres by assumption. assumption.
Qed.

Lemma store_eta s : {| objs := objs s; arrays := arrays s |} = s.
Proof. destruct s. reflexivity. Qed.

Lemma store_with_same s p o : objs s !! p = Some o -> store_with s p o = s.
Proof.
  intros Hp. unfold store_with. rewrite insert_id by assumption. apply store_eta.
Qed.

Lemma int_elements_indexed H o a e st n c :
  concrete_rep o = Some {| bounds := IntBounds a e st; len := n; elements := c |} ->
  ok_int H a st n ->
  Forall2 (fun i x => TclArithSeriesObjIndex o i = Ret (TCL_OK, Some x))
    (seqZ 0 n) (int_elements a st n).
Proof.
  intros Hrep Hok. unfold int_elements.
  apply Forall2_fmap_r, Forall_Forall2_diag, Forall_forall.
  intros i Hi. apply elem_of_seqZ in Hi.
  apply (index_int H o a e st n c i Hrep Hok). lia.
Qed.

Lemma int_elements_length a st n : 0 <= n -> Z.of_nat (length (int_elements a st n)) = n.
Proof. intros Hn. unfold int_elements. rewrite length_map, length_seqZ. lia. Qed.

(** The whole effect of materialising an integer series without a cache. *)
Lemma get_elements_effect H s p o a e st n :
  objs s !! p = Some o ->
  concrete_rep o = Some {| bounds := IntBounds a e st; len := n; elements := None |} ->
  ok_int H a st n -> n <= Wide.INT_MAX ->
  exists arr qs s',
    TclArithSeriesGetElements p s = Ret ((TCL_OK, Some (n, Some arr)), s') /\
    arrays s !! arr = None /\ arrays s' = <[arr := qs]> (arrays s) /\
    NoDup qs /\ Z.of_nat (length qs) = n /\
    (forall q, q ∈ qs -> objs s !! q = None) /\
    Forall2 (fun q x => objs s' !! q = Some (element_obj x)) qs
      (int_elements a st n) /\
    objs s' !! p
    = Some (with_rep o {| bounds := IntBounds a e st; len := n;
                          elements := Some arr |}) /\
    (forall x, x <> p -> x ∉ qs -> objs s' !! x = objs s !! x).
Proof.
  intros Hp Hrep Hok Hmax. pose proof Hok as (Hn & _).
  pose proof (int_elements_indexed H o a e st n None Hrep Hok) as Hidx.
  unfold TclArithSeriesGetElements.
  unfold bind at 1, get_obj. rewrite Hp, Hrep. cbn [len elements bounds present].
  rewrite to_int_small by (wide_consts; lia).
  rewrite andb_false_r. replace (n >? 0) with true by lia.
  destruct (fill_elements_spec o _ _ Hidx s)
    as (qs & s1 & E & Ha & Hpres & Hnd & Hnew & Hall).
  unfold bind at 1. unfold bind at 1. rewrite E.
  unfold bind at 1, alloc_array, ret.
  set (arr := fresh (dom (arrays s1))).
  assert (Harr : arrays s !! arr = None).
  { rewrite <- Ha. apply not_elem_of_dom, is_fresh. }
  assert (Hpq : p ∉ qs).
  { intros Hin. specialize (Hnew p Hin). congruence. }
  assert (Hp1 : objs s1 !! p = Some o) by (rewrite Hpres by assumption; assumption).
  unfold bind, set_rep, bind, get_obj, set_obj. cbn [objs arrays]. rewrite Hp1.
  exists arr, qs. eexists. split; [reflexivity|].
  split; [exact Harr|]. split; [cbn; rewrite Ha; reflexivity|].
  split; [exact Hnd|]. split.
  { rewrite (Forall2_length _ _ _ Hall). apply int_elements_length. lia. }
  split; [exact Hnew|]. split; [|split; [apply lookup_insert_eq|]].
  - eapply Forall2_impl; [exact Hall|]. intros q x Hq. cbn.
    rewrite lookup_insert_ne; [exact Hq|].
    intros <-. rewrite Hp1 in Hq. injection Hq as Hq.
    unfold concrete_rep in Hrep. rewrite Hq in Hrep. discriminate.
  - intros x Hxp Hx. cbn. rewrite lookup_insert_ne by congruence.
    apply Hpres, Hx.
Qed.

(** Materialising an integer series that has no cache yet (elements of
    magnitude at most 2^53, count within C's [int]) succeeds: it reports the
    count, allocates one new object per element, each holding the element
    at its index with one reference, stores them in a new array, and leaves
    the series pointing to that array, with its other fields unchanged. *)
Theorem get_elements_materialises (H : Host) (s : store) (p : loc) (o : Tcl_Obj)
    (a e st n : Z) :
  objs s !! p = Some o ->
  concrete_rep o = Some {| bounds := IntBounds a e st; len := n; elements := None |} ->
  ok_int H a st n -> n <= Wide.INT_MAX ->
  exists arr qs s',
    TclArithSeriesGetElements p s = Ret ((TCL_OK, Some (n, Some arr)), s') /\
    arrays s !! arr = None /\ arrays s' !! arr = Some qs /\
    Forall2 (fun q x => objs s' !! q = Some (element_obj x)) qs
      (int_elements a st n) /\
    (forall q, q ∈ qs -> objs s !! q = None) /\
    objs s' !! p
    = Some (with_rep o {| bounds := IntBounds a e st; len := n;
                          elements := Some arr |}) /\
    cache_ok s' p {| bounds := IntBounds a e st; len := n; elements := Some arr |}.
Proof.
  intros Hp Hrep Hok Hmax.
  destruct (get_elements_effect H s p o a e st n Hp Hrep Hok Hmax)
    as (arr & qs & s' & E & Harr & Ha & Hnd & Hlen & Hnew & Hall & Hp' & Hfr).
  assert (Hpq : p ∉ qs).
  { intros Hin. specialize (Hnew p Hin). congruence. }
  exists arr, qs, s'. split; [exact E|]. split; [exact Harr|].
  split; [rewrite Ha; apply lookup_insert_eq|]. split; [exact Hall|].
  split; [exact Hnew|]. split; [exact Hp'|].
  unfold cache_ok. cbn [elements len]. exists qs.
  split; [rewrite Ha; apply lookup_insert_eq|]. split; [exact Hlen|].
  split; [exact Hnd|]. split; [exact Hpq|].
  intros q Hq. apply list_elem_of_lookup in Hq as [k Hk].
  destruct (Forall2_lookup_l _ _ _ _ _ Hall Hk) as (x & _ & Hx). eauto.
Qed.

Lemma get_elements_materialises_witness :
  objs odd_store !! 1%positive = Some odd_series /\
  ok_int tcl8 1 2 5 /\ 5 <= Wide.INT_MAX /\
  exists arr qs s',
    TclArithSeriesGetElements 1%positive odd_store
    = Ret ((TCL_OK, Some (5, Some arr)), s') /\
    arrays s' !! arr = Some qs /\
    Forall2 (fun q x => objs s' !! q = Some (element_obj x)) qs
      (int_elements 1 2 5).
Proof.
  assert (Hok : ok_int tcl8 1 2 5).
  { unfold ok_int, small, tcl8; cbn [TCL_MAJOR_VERSION ListSizeT_MAX].
    wide_consts. lia. }
  assert (Hmax : 5 <= Wide.INT_MAX) by (wide_consts; lia).
  split; [reflexivity|]. split; [exact Hok|]. split; [exact Hmax|].
  destruct (get_elements_materialises tcl8 odd_store 1%positive odd_series
              1 10 2 5 eq_refl eq_refl Hok Hmax)
    as (arr & qs & s' & E & _ & Ha & Hall & _).
  exists arr, qs, s'. repeat split; assumption.
Defined.

(** A series that already has its elements cached hands back the same array
    and count, and the call changes nothing in the store. *)
Theorem get_elements_reuses_the_cache (s : store) (p : loc) (o : Tcl_Obj)
    (r : ArithSeries) (arr : loc) :
  objs s !! p = Some o -> concrete_rep o = Some r ->
  elements r = Some arr -> Wide.to_int (len r) <> 0 ->
  TclArithSeriesGetElements p s
  = Ret ((TCL_OK, Some (Wide.to_int (len r), Some arr)), s).
Proof.
  intros Hp Hrep Hel Hn.
  unfold TclArithSeriesGetElements, set_rep, bind, get_obj, set_obj, ret.
  rewrite Hp, Hrep, Hel. cbn [present].
  replace (negb (Wide.to_int (len r) =? 0) && true) with true by lia.
  cbn. rewrite Hp.
  assert (Eo : {| refCount := refCount o; bytes := bytes o;
                  internalRep := AbstractListRep
                    {| bounds := bounds r; len := len r; elements := Some arr |} |}
               = o).
  { destruct o as [rc bs ir], r as [b n c]. unfold concrete_rep in Hrep.
    cbn in *. destruct ir; try discriminate. injection Hrep as ->. subst c.
    reflexivity. }
  rewrite Eo, store_with_same by assumption. reflexivity.
Qed.

(** Materialising twice: the second call returns the array of the first and
    allocates nothing. *)
Theorem get_elements_twice_same_array (H : Host) (s : store) (p : loc)
    (o : Tcl_Obj) (a e st n : Z) :
  objs s !! p = Some o ->
  concrete_rep o = Some {| bounds := IntBounds a e st; len := n; elements := None |} ->
  ok_int H a st n -> n <= Wide.INT_MAX ->
  exists arr s',
    TclArithSeriesGetElements p s = Ret ((TCL_OK, Some (n, Some arr)), s') /\
    TclArithSeriesGetElements p s' = Ret ((TCL_OK, Some (n, Some arr)), s').
Proof.
  intros Hp Hrep Hok Hmax. pose proof Hok as (Hn & _).
  destruct (get_elements_materialises H s p o a e st n Hp Hrep Hok Hmax)
    as (arr & qs & s' & E & _ & _ & _ & _ & Hp' & _).
  exists arr, s'. split; [exact E|].
  pose proof (get_elements_reuses_the_cache s' p _ _ arr Hp' eq_refl eq_refl) as E2.
  cbn [len] in E2. rewrite to_int_small in E2 by (wide_consts; lia).
  apply E2. lia.
Qed.

Lemma get_elements_reuses_the_cache_witness :
  cached_series empty_store = Ret (1%positive, odd_store_cached) /\
  objs odd_store_cached !! 1%positive = Some odd_cached_series /\
  Wide.to_int 5 <> 0 /\
  TclArithSeriesGetElements 1%positive odd_store_cached
  = Ret ((TCL_OK, Some (Wide.to_int 5, Some 1%positive)), odd_store_cached).
Proof.
  split; [vm_compute; reflexivity|]. split; [reflexivity|].
  split; [discriminate|].
  apply (get_elements_reuses_the_cache odd_store_cached 1%positive
           odd_cached_series
           {| bounds := IntBounds 1 10 2; len := 5; elements := Some 1%positive |}
           1%positive eq_refl eq_refl eq_refl).
  discriminate.
Defined.

Lemma get_elements_twice_same_array_witness :
  objs odd_store !! 1%positive = Some odd_series /\
  ok_int tcl8 1 2 5 /\ 5 <= Wide.INT_MAX /\
  exists arr s',
    TclArithSeriesGetElements 1%positive odd_store
    = Ret ((TCL_OK, Some (5, Some arr)), s') /\
    TclArithSeriesGetElements 1%positive s'
    = Ret ((TCL_OK, Some (5, Some arr)), s').
Proof.
  assert (Hok : ok_int tcl8 1 2 5).
  { unfold ok_int, small, tcl8; cbn [TCL_MAJOR_VERSION ListSizeT_MAX].
    wide_consts. lia. }
  assert (Hmax : 5 <= Wide.INT_MAX) by (wide_consts; lia).
  split; [reflexivity|]. split; [exact Hok|]. split; [exact Hmax|].
  apply (get_elements_twice_same_array tcl8 odd_store 1%positive odd_series
           1 10 2 5 eq_refl eq_refl Hok Hmax).
Defined.



(** ** Ownership of the cache *)

(** Duplicating a series that has cached elements and then releasing both
    the source and the duplicate has no result: the duplicate holds the
    source's array, which the first release has already freed. *)
Theorem duplicate_then_release_both_is_undefined (s : store) (p c : loc)
    (o oc : Tcl_Obj) (r : ArithSeries) (arr : loc) (ps : list loc) :
  objs s !! p = Some o -> concrete_rep o = Some r -> elements r = Some arr ->
  arrays s !! arr = Some ps -> Z.of_nat (length ps) = len r -> NoDup ps ->
  (forall q, q ∈ ps -> is_Some (objs s !! q)) ->
  objs s !! c = Some oc -> c <> p -> c ∉ ps ->
  (DupArithSeriesRep p c ;;; FreeArithSeriesRep p ;;; FreeArithSeriesRep c) s
  = Stuck.
Proof.
  intros Hp Hrep Hel Harr Hlen Hnd Hlive Hc Hcp Hcps.
  unfold bind at 1.
  rewrite (dup_copies_every_field s p c o oc r Hp Hrep Hc).
  set (s1 := store_with s c _).
  assert (Hp1 : objs s1 !! p = Some o)
    by (unfold s1; rewrite lookup_store_with_ne by assumption; assumption).
  assert (Hc1 : objs s1 !! c = Some (with_rep oc r))
    by (unfold s1; rewrite lookup_store_with_eq; reflexivity).
  destruct (release_elements_effect s1 arr ps (len r)) as (s2 & E2 & Ha2 & Hf2 & _);
    try assumption.
  { intros q Hq. unfold s1. rewrite lookup_store_with_ne by (intros <-; contradiction).
    apply Hlive, Hq. }
  unfold bind at 1.
  unfold FreeArithSeriesRep at 1. unfold bind at 1, get_obj. rewrite Hp1, Hrep, Hel.
  unfold bind at 1. rewrite E2. unfold set_obj.
  set (s3 := store_with s2 p _).
  assert (Hc3 : objs s3 !! c = Some (with_rep oc r)).
  { unfold s3. rewrite lookup_store_with_ne by congruence.
    rewrite Hf2 by assumption. exact Hc1. }
  unfold FreeArithSeriesRep, bind, get_obj. rewrite Hc3.
  cbn [concrete_rep with_rep internalRep]. rewrite Hel.
  unfold release_elements. cbn [arrays s3 store_with].
  rewrite Ha2, lookup_delete_eq. reflexivity.
Qed.

Lemma duplicate_then_release_both_is_undefined_witness :
  objs odd_store_cached_and_copy !! 1%positive = Some odd_cached_series /\
  arrays odd_store_cached_and_copy !! 1%positive
  = Some [2%positive; 3%positive; 4%positive; 5%positive; 6%positive] /\
  objs odd_store_cached_and_copy !! 7%positive = Some empty_obj /\
  (DupArithSeriesRep 1%positive 7%positive ;;; FreeArithSeriesRep 1%positive ;;;
   FreeArithSeriesRep 7%positive) odd_store_cached_and_copy = Stuck.
Proof.
  split; [reflexivity|]. split; [reflexivity|]. split; [reflexivity|].
  apply (duplicate_then_release_both_is_undefined odd_store_cached_and_copy
           1%positive 7%positive odd_cached_series empty_obj
           {| bounds := IntBounds 1 10 2; len := 5; elements := Some 1%positive |}
           1%positive [2%positive; 3%positive; 4%positive; 5%positive; 6%positive]
           eq_refl eq_refl eq_refl eq_refl eq_refl).
  - refine (bool_decide_unpack _ _). vm_compute. exact I.
  - intros q Hq.
    repeat (apply elem_of_cons in Hq as [->|Hq]; [vm_compute; eauto|]).
    inversion Hq.
  - reflexivity.
  - discriminate.
  - refine (bool_decide_unpack _ _). vm_compute. exact I.
Defined.







(** ** The renderer's count *)

(** The renderer takes the count through a C [int]: when the count reduced
    to 32 bits is not positive (a count of 2^32, for one), the string
    representation becomes the empty string. *)
Theorem string_of_count_reduced_to_int (H : Host) (s : store) (p : loc)
    (o : Tcl_Obj) (r : ArithSeries) :
  objs s !! p = Some o -> concrete_rep o = Some r ->
  Wide.to_int (len r) <= 0 ->
  UpdateStringOfArithSeries H p s
  = Ret (tt, store_with s p {| refCount := refCount o;
                               bytes := Some EmptyString;
                               internalRep := internalRep o |}).
Proof.
  intros Hp Hrep Hn.
  unfold UpdateStringOfArithSeries, set_bytes, bind, lift, get_obj, set_obj.
  rewrite Hp. unfold TclArithSeriesObjLength. rewrite Hrep. cbn [rd obind].
  replace (Wide.to_int (len r) <=? 0) with true by lia.
  rewrite Hp. reflexivity.
Qed.

Lemma string_of_count_reduced_to_int_witness :
  objs wide_store !! 1%positive = Some wide_series /\
  Wide.to_int (2 ^ 32) <= 0 /\
  UpdateStringOfArithSeries tcl8 1%positive wide_store
  = Ret (tt, store_with wide_store 1%positive
               {| refCount := 0; bytes := Some EmptyString;
                  internalRep := internalRep wide_series |}).
Proof.
  split; [reflexivity|]. split; [vm_compute; discriminate|].
  apply (string_of_count_reduced_to_int tcl8 wide_store 1%positive wide_series
           {| bounds := IntBounds 0 (2 ^ 32 - 1) 1; len := 2 ^ 32; elements := None |}
           eq_refl eq_refl).
  vm_compute. discriminate.
Defined.

(** ** Float series *)

(** The first element of a float series is its start, bit for bit, whenever
    the start is a finite nonzero value and the step is finite. *)
Theorem float_first_element_is_start (o : Tcl_Obj) (r : ArithSeries)
    (sg : bool) (m : positive) (ex : Z) (e st : double) :
  concrete_rep o = Some r ->
  bounds r = DblBounds (S754_finite sg m ex) e st ->
  1 <= len r -> finite st = true ->
  TclArithSeriesObjIndex o 0 = Ret (TCL_OK, Some (NumDbl (S754_finite sg m ex))).
Proof.
  intros Hrep Hb Hn Hst.
  unfold TclArithSeriesObjIndex. rewrite Hrep. cbn [rd obind].
  replace ((0 <? 0) || (0 >=? len r)) with false by lia.
  unfold isDouble, ArithSeriesIndexM. rewrite Hb.
  change (Dbl.of_wide 0) with (S754_zero false).
  destruct st as [s0|s0| |s0 m0 e0]; try discriminate; reflexivity.
Qed.

Lemma float_first_element_is_start_witness :
  concrete_rep (series_obj (DblBounds d0_1 d0_2 d0_1) 2)
  = Some {| bounds := DblBounds d0_1 d0_2 d0_1; len := 2; elements := None |} /\
  d0_1 = S754_finite false 7205759403792794 (-56) /\
  finite d0_1 = true /\
  TclArithSeriesObjIndex (series_obj (DblBounds d0_1 d0_2 d0_1) 2) 0
  = Ret (TCL_OK, Some (NumDbl (S754_finite false 7205759403792794 (-56)))).
Proof.
  split; [reflexivity|]. split; [vm_compute; reflexivity|].
  split; [vm_compute; reflexivity|].
  apply (float_first_element_is_start (series_obj (DblBounds d0_1 d0_2 d0_1) 2)
           {| bounds := DblBounds d0_1 d0_2 d0_1; len := 2; elements := None |}
           false 7205759403792794 (-56) d0_2 d0_1 eq_refl).
  - vm_compute. reflexivity.
  - cbn. lia.
  - vm_compute. reflexivity.
Defined.

(** ** Indexing within the exact range *)

(** On an integer series whose elements have magnitude at most 2^53 the
    index returns exactly [start + i * step] for every [i] in [0, len): the
    passage through [double] in the index macro loses nothing there. *)
Theorem index_is_exact_up_to_2_53 (H : Host) (o : Tcl_Obj) (a e st n : Z)
    (c : option loc) (i : Z) :
  concrete_rep o = Some {| bounds := IntBounds a e st; len := n; elements := c |} ->
  ok_int H a st n -> 0 <= i < n ->
  TclArithSeriesObjIndex o i = Ret (TCL_OK, Some (NumInt (a + i * st))).
Proof. apply index_int. Qed.

Lemma index_is_exact_up_to_2_53_witness :
  concrete_rep odd_series
  = Some {| bounds := IntBounds 1 10 2; len := 5; elements := None |} /\
  ok_int tcl8 1 2 5 /\ 0 <= 4 < 5 /\
  TclArithSeriesObjIndex odd_series 4 = Ret (TCL_OK, Some (NumInt (1 + 4 * 2))).
Proof.
  assert (Hok : ok_int tcl8 1 2 5).
  { unfold ok_int, small, tcl8; cbn [TCL_MAJOR_VERSION ListSizeT_MAX].
    wide_consts. lia. }
  split; [reflexivity|]. split; [exact Hok|]. split; [lia|].
  apply (index_is_exact_up_to_2_53 tcl8 odd_series 1 10 2 5 None 4 eq_refl Hok).
  lia.
Defined.

(** ** Duplication as seen by a reader *)

(** A duplicate reads like its source: same length, same result of indexing
    at every position; the source object is not touched and nothing is
    allocated. *)
Theorem duplicate_reads_like_the_source (s : store) (p c : loc) (o oc : Tcl_Obj)
    (r : ArithSeries) :
  objs s !! p = Some o -> concrete_rep o = Some r ->
  objs s !! c = Some oc -> c <> p ->
  exists s' o',
    DupArithSeriesRep p c s = Ret (tt, s') /\
    objs s' !! c = Some o' /\ same_elements o' o /\
    objs s' !! p = Some o /\ arrays s' = arrays s /\
    refCount o' = refCount oc /\ bytes o' = bytes oc.
Proof.
  intros Hp Hrep Hc Hcp.
  rewrite (dup_copies_every_field s p c o oc r Hp Hrep Hc).
  eexists. eexists. split; [reflexivity|].
  split; [apply lookup_store_with_eq|]. split; [|split; [|repeat split]].
  - split.
    + unfold TclArithSeriesObjLength. cbn [concrete_rep internalRep].
      rewrite Hrep. reflexivity.
    + intros i. unfold TclArithSeriesObjIndex. cbn [concrete_rep internalRep].
      rewrite Hrep. reflexivity.
  - rewrite lookup_store_with_ne by assumption. exact Hp.
Qed.

Lemma duplicate_reads_like_the_source_witness :
  objs odd_store_cached_and_copy !! 1%positive = Some odd_cached_series /\
  objs odd_store_cached_and_copy !! 7%positive = Some empty_obj /\
  7%positive <> 1%positive /\
  exists s' o',
    DupArithSeriesRep 1%positive 7%positive odd_store_cached_and_copy
    = Ret (tt, s') /\
    objs s' !! 7%positive = Some o' /\ same_elements o' odd_cached_series.
Proof.
  split; [reflexivity|]. split; [reflexivity|]. split; [discriminate|].
  destruct (duplicate_reads_like_the_source odd_store_cached_and_copy
              1%positive 7%positive odd_cached_series empty_obj _
              eq_refl eq_refl eq_refl) as (s' & o' & E & Hc & Hsame & _).
  - discriminate.
  - exists s', o'. repeat split; try assumption; apply Hsame.
Defined.

(** ** A negative count *)

(** An explicit negative count asks for the count to be computed: with
    integer start, end and nonzero step, construction calls
    [ArithSeriesLen start end step].  Where the division of line 114 is
    defined (it is not LLONG_MIN / -1) the count of the new value is the
    result of that call (an empty value when it is not positive), and the
    list size limit is tested on the negative count given, not on the
    computed one; where the division traps, construction has no result. *)
Theorem negative_count_is_recomputed (H : Host) (interp : InterpPtr)
    (a b st n : Z) (s : store) :
  st <> 0 -> n < 0 -> (TCL_MAJOR_VERSION H < 9 -> n <= ListSizeT_MAX H) ->
  TclNewArithSeriesObj H interp false (Some (NumInt a)) (Some (NumInt b))
    (Some (NumInt st)) (Some (NumInt n)) s
  = if Wide.div_traps (Wide.sub b a) st then Stuck
    else Ret ((TCL_OK, Some (alloc_loc s)),
              store_with s (alloc_loc s)
                (if ArithSeriesLen a b st <=? 0 then empty_obj
                 else series_obj (IntBounds a b st) (ArithSeriesLen a b st))).
Proof.
  intros Hst Hn Hsize.
  unfold TclNewArithSeriesObj, infer, bind, lift. cbn.
  rewrite of_wide_eqb_zero. replace (st =? 0) with false by lia. cbn.
  replace ((TCL_MAJOR_VERSION H <? 9) && (n >? ListSizeT_MAX H)) with false by lia.
  cbn. unfold TclNewArithSeriesInt, call_ArithSeriesLen, bind, lift, ret.
  replace (n >=? 0) with false by lia.
  replace (st =? 0) with false by lia. cbn [negb andb].
  destruct (Wide.div_traps (Wide.sub b a) st); [reflexivity|].
  destruct (ArithSeriesLen a b st <=? 0); reflexivity.
Qed.

Lemma negative_count_is_recomputed_witness :
  1 <> 0 /\ -1 < 0 /\
  ArithSeriesLen 0 (2 ^ 31) 1 = 2 ^ 31 + 1 /\
  ListSizeT_MAX tcl8 < ArithSeriesLen 0 (2 ^ 31) 1 /\
  TclNewArithSeriesObj tcl8 Interp false (Some (NumInt 0)) (Some (NumInt (2 ^ 31)))
    (Some (NumInt 1)) (Some (NumInt (-1))) empty_store
  = Ret ((TCL_OK, Some (alloc_loc empty_store)),
         store_with empty_store (alloc_loc empty_store)
           (series_obj (IntBounds 0 (2 ^ 31) 1) (2 ^ 31 + 1))) /\
  TclNewArithSeriesObj tcl8 Interp false (Some (NumInt 0)) (Some (NumInt Wide.MIN))
    (Some (NumInt (-1))) (Some (NumInt (-1))) empty_store
  = Stuck.
Proof.
  split; [discriminate|]. split; [lia|]. split; [vm_compute; reflexivity|].
  split; [vm_compute; reflexivity|]. split.
  - exact (negative_count_is_recomputed tcl8 Interp 0 (2 ^ 31) 1 (-1) empty_store
             ltac:(discriminate) ltac:(lia) ltac:(intros _; vm_compute; discriminate)).
  - exact (negative_count_is_recomputed tcl8 Interp 0 Wide.MIN (-1) (-1) empty_store
             ltac:(discriminate) ltac:(lia) ltac:(intros _; vm_compute; discriminate)).
Defined.
